(** * SAML handler of Synapse: session tracking and identity mapping

    A shallow embedding of [synapse/handlers/saml_handler.py]: the
    pending-session table with its expiry sweep, the resolution of a SAML
    response to a local user ([_map_saml_response_to_user]), the default
    mapping provider and the dot-replace normaliser, followed by the
    properties established about them. *)

From Stdlib Require Import ZArith String Ascii DecimalString DecimalNat DecimalFacts Lia.
From stdpp Require Import gmap strings list fin_maps.

Open Scope Z_scope.
Open Scope string_scope.

(** ** Python values used by the handler *)

(** The exceptions that can leave the handler.  [SynapseError] carries the
    HTTP status code and the message; [Raised] stands for an exception type
    that belongs to a collaborator (registration, a custom mapping provider). *)
Inductive exn : Type :=
| SynapseError (code : Z) (msg : string)
| ConfigError (msg : string)
| Exception (msg : string)
| IndexError
| Raised (what : string).

(** A computation that returns a value or raises. *)
Definition result (A : Type) : Type := (exn + A)%type.

(** Truth value of a Python [str]: only the empty string is false. *)
Definition truthy (s : string) : bool :=
  match s with
  | EmptyString => false
  | String _ _ => true
  end.

(** [str(n)] for a non-negative [int]. *)
Definition str (n : nat) : string := NilEmpty.string_of_uint (Nat.to_uint n).

(** [Saml2SessionData]: what is tracked about a SAML2 session. *)
Record Saml2SessionData : Type := {
  creation_time : Z;
  ui_auth_session_id : option string
}.

(** The fields of pysaml2's [AuthnResponse] that the handler reads.  [ava]
    maps an attribute name to the list of its values. *)
Record AuthnResponse : Type := {
  not_signed : bool;
  ava : gmap string (list string);
  in_response_to : option string
}.

(** The dict returned by [saml_response_to_user_attributes]; a key that is
    absent (or whose value is [None]) is [None] here. *)
Record UserAttributes : Type := {
  mxid_localpart : option string;
  displayname : option string;
  emails : option (list string)
}.

(** ** The dot-replace normaliser *)

Definition is_upper (c : ascii) : bool :=
  (65 <=? nat_of_ascii c)%nat && (nat_of_ascii c <=? 90)%nat.

Definition lower_ascii (c : ascii) : ascii :=
  if is_upper c then ascii_of_nat (nat_of_ascii c + 32) else c.

(** [str.lower()] on the characters a Rocq [string] holds: the upper-case
    ASCII letters are mapped, every other character is kept.  This is
    Python's [lower] on ASCII strings, one character of the Rocq string
    being one character of the Python string; strings with characters
    outside ASCII are not covered by the model. *)
Fixpoint lower (s : string) : string :=
  match s with
  | EmptyString => EmptyString
  | String c s' => String (lower_ascii c) (lower s')
  end.

Section Normaliser.

(** [mxid_localpart_allowed_characters] is imported from [synapse.types];
    the normaliser is kept generic in it. *)
Variable mxid_localpart_allowed_characters : list ascii.

Definition allowed (c : ascii) : bool :=
  existsb (Ascii.eqb c) mxid_localpart_allowed_characters.

(** [DOT_REPLACE_PATTERN.sub(".", username)]: the pattern is the negated
    character class of the allowed characters.  The substitution goes
    character by character of the Rocq string, which is that of the regular
    expression on ASCII strings. *)
Fixpoint DOT_REPLACE_PATTERN_sub (username : string) : string :=
  match username with
  | EmptyString => EmptyString
  | String c s' =>
      String (if allowed c then c else "."%char) (DOT_REPLACE_PATTERN_sub s')
  end.

(** [re.sub("^_", "", username)]: the anchor matches at the start only, so
    at most one character goes. *)
Definition strip_leading_underscore (username : string) : string :=
  match username with
  | String "_"%char s' => s'
  | _ => username
  end.

Definition dot_replace_for_mxid (username : string) : string :=
  let username := lower username in
  let username := DOT_REPLACE_PATTERN_sub username in
  let username := strip_leading_underscore username in
  username.

End Normaliser.

(** [MXID_MAPPER_MAP]: the mapping functions by the name the configuration
    uses for them.  [map_username_to_mxid_localpart] and the allowed
    characters come from [synapse.types]. *)
Definition MXID_MAPPER_MAP (map_username_to_mxid_localpart : string -> string)
    (mxid_localpart_allowed_characters : list ascii)
    : gmap string (string -> string) :=
  {[ "hexencode" := map_username_to_mxid_localpart;
     "dotreplace" := dot_replace_for_mxid mxid_localpart_allowed_characters ]}.

(** ** The mapping provider interface and the default provider *)

(** What the handler calls on its [_user_mapping_provider] plugin. *)
Record UserMappingProvider : Type := {
  get_remote_user_id : AuthnResponse -> string -> result string;
  saml_response_to_user_attributes :
    AuthnResponse -> nat -> string -> result UserAttributes
}.

Record SamlConfig : Type := {
  mxid_source_attribute : string;
  mxid_mapper : string -> string
}.

Module DefaultSamlMappingProvider.

Record t : Type := {
  _mxid_source_attribute : string;
  _mxid_mapper : string -> string;
  _grandfathered_mxid_source_attribute : option string
}.

Definition __init__ (parsed_config : SamlConfig)
    (saml2_grandfathered_mxid_source_attribute : option string) : t :=
  {| _mxid_source_attribute := mxid_source_attribute parsed_config;
     _mxid_mapper := mxid_mapper parsed_config;
     _grandfathered_mxid_source_attribute :=
       saml2_grandfathered_mxid_source_attribute |}.

(** [saml_response.ava["uid"][0]], a missing key turned into a 400. *)
Definition get_remote_user_id (self : t) (saml_response : AuthnResponse)
    (client_redirect_url : string) : result string :=
  match ava saml_response !! "uid" with
  | None => inl (SynapseError 400 "'uid' not in SAML2 response")
  | Some [] => inl IndexError
  | Some (v :: _) => inr v
  end.

Definition saml_response_to_user_attributes (self : t)
    (saml_response : AuthnResponse) (failures : nat)
    (client_redirect_url : string) : result UserAttributes :=
  match ava saml_response !! _mxid_source_attribute self with
  | None =>
      inl (SynapseError 400
             (_mxid_source_attribute self +:+ " not in SAML2 response"))
  | Some [] => inl IndexError
  | Some (mxid_source :: _) =>
      let base_mxid_localpart := _mxid_mapper self mxid_source in
      let localpart :=
        base_mxid_localpart +:+
          (match failures with O => "" | S _ => str failures end) in
      match ava saml_response !! "displayName" with
      | Some [] => inl IndexError
      | dn =>
          inr {| mxid_localpart := Some localpart;
                 displayname :=
                   match dn with Some (d :: _) => Some d | _ => None end;
                 emails :=
                   Some (default [] (ava saml_response !! "email")) |}
      end
  end.

(** [parse_config]: the options read from the homeserver's config dict.
    [MXID_MAPPER_MAP] is passed in, its [hexencode] entry being a function
    of [synapse.types]. *)
Definition parse_config (MXID_MAPPER_MAP : gmap string (string -> string))
    (config : gmap string string) : result SamlConfig :=
  let mxid_source_attribute := default "uid" (config !! "mxid_source_attribute") in
  let mapping_type := default "hexencode" (config !! "mxid_mapping") in
  match MXID_MAPPER_MAP !! mapping_type with
  | None =>
      inl (ConfigError
             ("saml2_config.user_mapping_provider.config: '" +:+ mapping_type
              +:+ "' is not a valid mxid_mapping value"))
  | Some mxid_mapper =>
      inr {| mxid_source_attribute := mxid_source_attribute;
             mxid_mapper := mxid_mapper |}
  end.

Definition get_saml_attributes (config : SamlConfig)
    : gset string * gset string :=
  ({[ "uid"; mxid_source_attribute config ]}, {[ "displayName"; "email" ]}).

(** The provider seen through the plugin interface. *)
Definition provider (self : t) : UserMappingProvider :=
  Build_UserMappingProvider
    (get_remote_user_id self) (saml_response_to_user_attributes self).

End DefaultSamlMappingProvider.

(** ** The handler's state and its monad *)

(** One recorded call of [register_user(localpart, default_display_name,
    bind_emails)]. *)
Record RegisterCall : Type := {
  call_localpart : string;
  call_default_display_name : option string;
  call_bind_emails : list string
}.

(** What the caller does once the response is mapped to a user. *)
Inductive Completion (Request : Type) : Type :=
| complete_sso_ui_auth (user_id ui_auth_session_id : string) (request : Request)
| complete_sso_login (user_id : string) (request : Request) (relay_state : string).
Arguments complete_sso_ui_auth {Request}.
Arguments complete_sso_login {Request}.

Section Handler.

(** The tables behind the account store and the registration handler. *)
Context {Accounts : Type}.
(** The incoming HTTP request. *)
Context {Request : Type}.

(** Everything the handler can read or change: the clock, its own
    [_outstanding_requests_dict], the external-id table of the datastore,
    the account tables, and the calls made to [register_user] so far. *)
Record World : Type := {
  time_msec : Z;
  _outstanding_requests_dict : gmap string Saml2SessionData;
  user_external_ids : gmap (string * string) string;
  accounts : Accounts;
  register_user_calls : list RegisterCall
}.

Definition set_outstanding (d : gmap string Saml2SessionData) (w : World) : World :=
  {| time_msec := time_msec w;
     _outstanding_requests_dict := d;
     user_external_ids := user_external_ids w;
     accounts := accounts w;
     register_user_calls := register_user_calls w |}.

Definition set_user_external_ids (t : gmap (string * string) string) (w : World) : World :=
  {| time_msec := time_msec w;
     _outstanding_requests_dict := _outstanding_requests_dict w;
     user_external_ids := t;
     accounts := accounts w;
     register_user_calls := register_user_calls w |}.

Definition set_registration (a : Accounts) (c : RegisterCall) (w : World) : World :=
  {| time_msec := time_msec w;
     _outstanding_requests_dict := _outstanding_requests_dict w;
     user_external_ids := user_external_ids w;
     accounts := a;
     register_user_calls := register_user_calls w ++ [c] |}.

(** State passing with exceptions: the state reached is kept when a
    computation raises. *)
Definition M (A : Type) : Type := World -> World * result A.

Definition ret {A} (a : A) : M A := fun w => (w, inr a).
Definition raise {A} (e : exn) : M A := fun w => (w, inl e).
Definition lift {A} (r : result A) : M A := fun w => (w, r).
Definition bind {A B} (m : M A) (k : A -> M B) : M B :=
  fun w =>
    match m w with
    | (w', inl e) => (w', inl e)
    | (w', inr a) => k a w'
    end.

Notation "x <-- m ;; k" := (bind m (fun x => k))
  (at level 100, m at next level, right associativity).
Notation "m ;;; k" := (bind m (fun _ => k))
  (at level 100, right associativity).

(** The immutable attributes set by [SamlHandler.__init__]. *)
Record SamlHandler : Type := {
  _hostname : string;
  _saml2_session_lifetime : Z;
  _grandfathered_mxid_source_attribute : option string;
  _user_mapping_provider : UserMappingProvider
}.

(** [self._auth_provider_id]: identifier for the external_ids table. *)
Definition _auth_provider_id : string := "saml".

(** *** Collaborators *)

(** [parse_string(request, name, required=True)] of [synapse.http.servlet]. *)
Variable parse_string : Request -> string -> result string.
(** pysaml2's [parse_authn_request_response]; a failure carries the text of
    the exception it raised. *)
Variable parse_authn_request_response :
  string -> gmap string Saml2SessionData -> string + AuthnResponse.
(** [get_users_by_id_case_insensitive]: the matching user ids with their
    password hashes, in the order of the returned dict. *)
Variable get_users_by_id_case_insensitive :
  Accounts -> string -> list (string * string).
(** [register_user] of the registration handler: the account tables after
    the call, and the new user id or the exception raised. *)
Variable register_user :
  Accounts -> string -> option string -> list string -> Accounts * result string.
(** [map_username_to_mxid_localpart] and [UserID(...).to_string()] of
    [synapse.types]. *)
Variable map_username_to_mxid_localpart : string -> string.
Variable UserID_to_string : string -> string -> string.

(** Modelled from the spec: the external-id table of the account store
    ([get_user_by_external_id] and [record_user_external_id] of the
    datastore are not among the source files), as the mapping
    (authProviderId, externalUserId) -> localUserId that
    [findBindingByExternalId] reads and [createBinding] extends. *)
Definition get_user_by_external_id (auth_provider external_id : string)
    : M (option string) :=
  fun w => (w, inr (user_external_ids w !! (auth_provider, external_id))).

Definition record_user_external_id (auth_provider external_id user_id : string)
    : M unit :=
  fun w =>
    (set_user_external_ids
       (<[(auth_provider, external_id) := user_id]> (user_external_ids w)) w,
     inr tt).

Definition call_get_users_by_id_case_insensitive (user_id : string)
    : M (list (string * string)) :=
  fun w => (w, inr (get_users_by_id_case_insensitive (accounts w) user_id)).

Definition call_register_user (localpart : string)
    (default_display_name : option string) (bind_emails : list string)
    : M string :=
  fun w =>
    let '(a, r) :=
      register_user (accounts w) localpart default_display_name bind_emails in
    (set_registration a
       {| call_localpart := localpart;
          call_default_display_name := default_display_name;
          call_bind_emails := bind_emails |} w,
     r).

(** *** [handle_redirect_request] *)

(** pysaml2's [prepare_for_authenticate(relay_state=...)]: the id of the
    authentication request it built and the headers of [info], or the
    exception it raised.  The id it picks may depend on anything in the
    state. *)
Variable prepare_for_authenticate :
  World -> string -> result (string * list (string * string)).

(** The loop over [info["headers"]]: the value of the first header named
    [Location]. *)
Fixpoint find_location (headers : list (string * string)) : option string :=
  match headers with
  | [] => None
  | (key, value) :: rest =>
      if String.eqb key "Location" then Some value else find_location rest
  end.

Definition handle_redirect_request (client_redirect_url : string)
    (ui_auth_session_id : option string) : M string :=
  fun w =>
    match prepare_for_authenticate w client_redirect_url with
    | inl e => (w, inl e)
    | inr (reqid, headers) =>
        let now := time_msec w in
        let w' :=
          set_outstanding
            (<[reqid := {| creation_time := now;
                           ui_auth_session_id := ui_auth_session_id |}]>
               (_outstanding_requests_dict w)) w in
        match find_location headers with
        | Some value => (w', inr value)
        | None =>
            (w', inl (Exception
                        "prepare_for_authenticate didn't return a Location header"))
        end
    end.

(** *** [expire_sessions] *)

(** The first loop of [expire_sessions]: the set [to_expire] of the request
    ids whose session is older than [expire_before].  The second loop, in
    [expire_sessions] below, deletes them one by one. *)
Definition to_expire (expire_before : Z) (d : gmap string Saml2SessionData)
    : gset string :=
  map_fold
    (fun reqid data acc =>
       if decide (creation_time data < expire_before) then {[reqid]} ∪ acc
       else acc)
    ∅ d.

Definition expire_sessions (self : SamlHandler) : M unit :=
  fun w =>
    let expire_before := time_msec w - _saml2_session_lifetime self in
    (set_outstanding
       (set_fold (fun reqid d => delete reqid d)
          (_outstanding_requests_dict w)
          (to_expire expire_before (_outstanding_requests_dict w))) w,
     inr tt).

(** *** [_map_saml_response_to_user]

    The part of the function after the extraction of the remote user id
    runs under the mapping lock of the provider; the whole call is taken
    here as one uninterrupted sequence of steps.  Logging is left out. *)

(** [self._outstanding_requests_dict.pop(saml2_auth.in_response_to, None)] *)
Definition pop_outstanding (key : option string) : M (option Saml2SessionData) :=
  fun w =>
    match key with
    | None => (w, inr None)
    | Some reqid =>
        match _outstanding_requests_dict w !! reqid with
        | None => (w, inr None)
        | Some data =>
            (set_outstanding (delete reqid (_outstanding_requests_dict w)) w,
             inr (Some data))
        end
    end.

(** The backwards-compatibility block: [Some user_id] when it returns from
    the function with a grandfathered account, [None] when control falls
    through to the mapping loop. *)
Definition grandfathered_mapping (self : SamlHandler)
    (saml2_auth : AuthnResponse) (remote_user_id : string) : M (option string) :=
  match _grandfathered_mxid_source_attribute self with
  | None => ret None
  | Some attribute =>
      if negb (truthy attribute) then ret None else
      match ava saml2_auth !! attribute with
      | None => ret None
      | Some [] => raise IndexError
      | Some (attrval :: _) =>
          let user_id :=
            UserID_to_string (map_username_to_mxid_localpart attrval)
              (_hostname self) in
          users <-- call_get_users_by_id_case_insensitive user_id ;;
          match users with
          | [] => ret None
          | (registered_user_id, _) :: _ =>
              record_user_external_id _auth_provider_id remote_user_id
                registered_user_id ;;;
              ret (Some registered_user_id)
          end
      end
  end.

(** The [for i in range(1000)] loop with its [else] clause, over the
    indices still to try; it leaves with the free [localpart] and the
    [displayname] and [emails] of the same attempt. *)
Fixpoint mapping_loop (self : SamlHandler) (saml2_auth : AuthnResponse)
    (client_redirect_url : string) (indices : list nat)
    : M (string * option string * list string) :=
  match indices with
  | [] =>
      raise (SynapseError 500
               "Unable to generate a Matrix ID from the SAML response")
  | i :: rest =>
      attribute_dict <--
        lift (saml_response_to_user_attributes (_user_mapping_provider self)
                saml2_auth i client_redirect_url) ;;
      match mxid_localpart attribute_dict with
      | None | Some EmptyString =>
          raise (Exception
                   ("Error parsing SAML2 response: SAML mapping provider plugin "
                    +:+ "did not return a mxid_localpart value"))
      | Some localpart =>
          let displayname := displayname attribute_dict in
          let emails := default [] (emails attribute_dict) in
          users <-- call_get_users_by_id_case_insensitive
                      (UserID_to_string localpart (_hostname self)) ;;
          match users with
          | [] => ret (localpart, displayname, emails)
          | _ :: _ => mapping_loop self saml2_auth client_redirect_url rest
          end
      end
  end.

Definition _map_saml_response_to_user (self : SamlHandler)
    (resp_bytes client_redirect_url : string)
    : M (string * option Saml2SessionData) :=
  saml2_auth <--
    (fun w =>
       match parse_authn_request_response resp_bytes
               (_outstanding_requests_dict w) with
       | inl e =>
           (w, inl (SynapseError 400 ("Unable to parse SAML2 response: " +:+ e)))
       | inr saml2_auth => (w, inr saml2_auth)
       end) ;;
  (if not_signed saml2_auth
   then raise (SynapseError 400 "SAML2 response was not signed")
   else ret tt) ;;;
  current_session <-- pop_outstanding (in_response_to saml2_auth) ;;
  remote_user_id <--
    lift (get_remote_user_id (_user_mapping_provider self)
            saml2_auth client_redirect_url) ;;
  (if truthy remote_user_id then ret tt
   else raise (Exception "Failed to extract remote user id from SAML response")) ;;;
  registered_user_id <--
    get_user_by_external_id _auth_provider_id remote_user_id ;;
  match registered_user_id with
  | Some registered_user_id => ret (registered_user_id, current_session)
  | None =>
      grandfathered <-- grandfathered_mapping self saml2_auth remote_user_id ;;
      match grandfathered with
      | Some registered_user_id => ret (registered_user_id, current_session)
      | None =>
          free <--
            mapping_loop self saml2_auth client_redirect_url (seq 0 1000) ;;
          let '(localpart, displayname, emails) := free in
          registered_user_id <--
            call_register_user localpart displayname emails ;;
          record_user_external_id _auth_provider_id remote_user_id
            registered_user_id ;;;
          ret (registered_user_id, current_session)
      end
  end.

(** *** [handle_saml_response] *)

Definition handle_saml_response (self : SamlHandler) (request : Request)
    : M (Completion Request) :=
  resp_bytes <-- lift (parse_string request "SAMLResponse") ;;
  relay_state <-- lift (parse_string request "RelayState") ;;
  expire_sessions self ;;;
  mapped <-- _map_saml_response_to_user self resp_bytes relay_state ;;
  let '(user_id, current_session) := mapped in
  match current_session with
  | Some {| ui_auth_session_id := Some session_id |} =>
      if truthy session_id
      then ret (complete_sso_ui_auth user_id session_id request)
      else ret (complete_sso_login user_id request relay_state)
  | _ => ret (complete_sso_login user_id request relay_state)
  end.

End Handler.

(** ** A small deployment to run the handler on

    Concrete collaborators on which the definitions above can be evaluated:
    account tables that are a list of user ids, a registration handler that
    appends the new id, and an assertion parser that looks the response up
    in a table of known responses and accepts responses to requests it does
    not track (pysaml2 with [allow_unsolicited]). *)
Module Scenario.

Definition hostname : string := "hs".

(** The localpart characters of the Matrix specification. *)
Definition mxid_localpart_allowed_characters : list ascii :=
  list_ascii_of_string "_-./=abcdefghijklmnopqrstuvwxyz0123456789".

Definition UserID_to_string (localpart domain : string) : string :=
  "@" +:+ localpart +:+ ":" +:+ domain.

(** The requests are the query arguments by name. *)
Definition parse_string (request : gmap string string) (name : string)
    : result string :=
  match request !! name with
  | Some v => inr v
  | None => inl (SynapseError 400 ("Missing string query parameter " +:+ name))
  end.

Definition parse_authn_request_response
    (known : gmap string AuthnResponse) (resp_bytes : string)
    (outstanding : gmap string Saml2SessionData) : string + AuthnResponse :=
  match known !! resp_bytes with
  | Some saml2_auth => inr saml2_auth
  | None => inl "not well-formed"
  end.

Definition get_users_by_id_case_insensitive (accounts : list string)
    (user_id : string) : list (string * string) :=
  (fun u => (u, "")) <$>
    filter (fun u => lower u = lower user_id) accounts.

Definition register_user (accounts : list string) (localpart : string)
    (default_display_name : option string) (bind_emails : list string)
    : list string * result string :=
  let user_id := UserID_to_string localpart hostname in
  ((accounts ++ [user_id])%list, inr user_id).

(** A registration handler that is out of order. *)
Definition register_user_failing (accounts : list string) (localpart : string)
    (default_display_name : option string) (bind_emails : list string)
    : list string * result string :=
  (accounts, inl (Raised "RegistrationError")).

(** The default provider, reading [uid] and normalising by dot-replace. *)
Definition default_provider : DefaultSamlMappingProvider.t :=
  DefaultSamlMappingProvider.__init__
    {| mxid_source_attribute := "uid";
       mxid_mapper := dot_replace_for_mxid mxid_localpart_allowed_characters |}
    None.

Definition handler (grandfathered : option string) : SamlHandler :=
  {| _hostname := hostname;
     _saml2_session_lifetime := 300000;
     _grandfathered_mxid_source_attribute := grandfathered;
     _user_mapping_provider :=
       DefaultSamlMappingProvider.provider default_provider |}.

(** A signed response for [uid=alice], answering request [id-1]. *)
Definition alice_response : AuthnResponse :=
  {| not_signed := false;
     ava := {[ "uid" := ["alice"] ]};
     in_response_to := Some "id-1" |}.

(** A signed response that carries no [uid], answering request [id-1]. *)
Definition no_uid_response : AuthnResponse :=
  {| not_signed := false;
     ava := {[ "email" := ["alice@example.org"] ]};
     in_response_to := Some "id-1" |}.

(** A signed response for [uid=bob] with a legacy attribute. *)
Definition bob_response : AuthnResponse :=
  {| not_signed := false;
     ava := {[ "uid" := ["bob"]; "legacy_uid" := ["bob"] ]};
     in_response_to := Some "id-1" |}.

Definition known_responses : gmap string AuthnResponse :=
  {[ "alice" := alice_response; "no-uid" := no_uid_response;
     "bob" := bob_response ]}.

Definition session (t : Z) : Saml2SessionData :=
  {| creation_time := t; ui_auth_session_id := None |}.

Definition world (now : Z) (pending : gmap string Saml2SessionData)
    (bindings : gmap (string * string) string) (users : list string)
    : @World (list string) :=
  {| time_msec := now;
     _outstanding_requests_dict := pending;
     user_external_ids := bindings;
     accounts := users;
     register_user_calls := [] |}.

Definition url : string := "https://client/cb".

Definition request (resp_bytes : string) : gmap string string :=
  {[ "SAMLResponse" := resp_bytes; "RelayState" := url ]}.

(** Six accounts: [@alice:hs] and [@alice1:hs] to [@alice5:hs]. *)
Definition six_accounts : list string :=
  ["@alice:hs"; "@alice1:hs"; "@alice2:hs"; "@alice3:hs"; "@alice4:hs";
   "@alice5:hs"].

(** One pending session, created at time 7 and looked at at time 10. *)
Definition pending : gmap string Saml2SessionData := {[ "id-1" := session 7 ]}.

Definition alice_bound : gmap (string * string) string :=
  {[ ("saml", "alice") := "@alice:hs" ]}.

(** [_map_saml_response_to_user] and [handle_saml_response] of this
    deployment.  [lower] stands for [map_username_to_mxid_localpart], with
    which it agrees on the names made of lower-case letters used here. *)
Definition map_response (grandfathered : option string) :=
  _map_saml_response_to_user
    (parse_authn_request_response known_responses)
    get_users_by_id_case_insensitive register_user
    lower UserID_to_string (handler grandfathered).

Definition handle (grandfathered : option string) :=
  handle_saml_response parse_string
    (parse_authn_request_response known_responses)
    get_users_by_id_case_insensitive register_user
    lower UserID_to_string (handler grandfathered).

(** An authentication request with the id [id-2], sent to the identity
    provider by a redirect. *)
Definition prepare_for_authenticate (w : @World (list string))
    (relay_state : string) : result (string * list (string * string)) :=
  inr ("id-2",
       [("Cache-Control", "no-cache");
        ("Location", "https://idp.example.org/sso?RelayState=" +:+ relay_state)]).

(** A response for [uid=alice] that answers the request [id-2]. *)
Definition alice_response_2 : AuthnResponse :=
  {| not_signed := false;
     ava := {[ "uid" := ["alice"] ]};
     in_response_to := Some "id-2" |}.

Definition known_responses_2 : gmap string AuthnResponse :=
  <["alice-2" := alice_response_2]> known_responses.

(** A pending session that belongs to the UI-auth session [ui-7]. *)
Definition ui_session (t : Z) : Saml2SessionData :=
  {| creation_time := t; ui_auth_session_id := Some "ui-7" |}.

Definition pending_ui : gmap string Saml2SessionData := {[ "id-1" := ui_session 7 ]}.

Definition carol_bound : gmap (string * string) string :=
  {[ ("saml", "carol") := "@carol:hs" ]}.

(** The state in which the redirect is made, and the redirect. *)
Definition before_redirect : @World (list string) :=
  world 10 ∅ alice_bound ["@alice:hs"].

Definition redirect (ui_auth_session_id : option string) :=
  handle_redirect_request prepare_for_authenticate url ui_auth_session_id
    before_redirect.

Definition handle_2 :=
  handle_saml_response parse_string
    (parse_authn_request_response known_responses_2)
    get_users_by_id_case_insensitive register_user
    lower UserID_to_string (handler None).

(** The same with the registration handler out of order. *)
Definition map_response_unregistered :=
  _map_saml_response_to_user
    (parse_authn_request_response known_responses)
    get_users_by_id_case_insensitive register_user_failing
    lower UserID_to_string (handler None).

Definition bob_call : RegisterCall :=
  {| call_localpart := "bob"; call_default_display_name := None;
     call_bind_emails := [] |}.

Definition alice_call : RegisterCall :=
  {| call_localpart := "alice"; call_default_display_name := None;
     call_bind_emails := [] |}.

End Scenario.

(** ** The expiry sweep *)

Section ExpireSessions.

Context {Accounts Request : Type}.
Implicit Types (w : @World Accounts) (d : gmap string Saml2SessionData).

Lemma elem_of_to_expire (expire_before : Z) d (reqid : string) :
  reqid ∈ to_expire expire_before d ↔
  ∃ data, d !! reqid = Some data ∧ creation_time data < expire_before.
Proof.
  unfold to_expire.
  apply (map_fold_weak_ind
           (fun (acc : gset string) (m : gmap string Saml2SessionData) =>
              reqid ∈ acc ↔
              ∃ data, m !! reqid = Some data ∧ creation_time data < expire_before)).
  - split; [by intros ?%not_elem_of_empty |].
    intros (data & Hl & _). by rewrite lookup_empty in Hl.
  - intros i x m r Hfresh IH.
    destruct (decide (i = reqid)) as [-> | Hne].
    + rewrite lookup_insert_eq. case_decide.
      * split; [eauto |]. intros _.
        apply elem_of_union_l. by apply elem_of_singleton.
      * rewrite IH. split.
        -- intros (data & Hl & _). congruence.
        -- intros (data & [= <-] & Hlt). lia.
    + rewrite lookup_insert_ne by done. case_decide; [| done].
      rewrite elem_of_union, elem_of_singleton, IH. split; [| by right].
      intros [-> | H']; [done | exact H'].
Qed.

Lemma lookup_delete_all d (X : gset string) (reqid : string) :
  set_fold (fun reqid d => delete reqid d) d X !! reqid =
  if decide (reqid ∈ X) then None else d !! reqid.
Proof.
  unfold set_fold. simpl. case_decide as Hin.
  - apply (lookup_foldr_delete d). by apply elem_of_elements.
  - apply (lookup_foldr_delete_not_elem_of d). by rewrite elem_of_elements.
Qed.

(** The table after [expire_sessions], entry by entry. *)
Lemma lookup_expire_sessions (self : SamlHandler) w (reqid : string) :
  _outstanding_requests_dict (expire_sessions self w).1 !! reqid =
  match _outstanding_requests_dict w !! reqid with
  | Some data =>
      if decide (creation_time data < time_msec w - _saml2_session_lifetime self)
      then None else Some data
  | None => None
  end.
Proof.
  unfold expire_sessions. simpl. rewrite lookup_delete_all.
  case_decide as Hin.
  - apply elem_of_to_expire in Hin as (data & -> & Hlt). by rewrite decide_True.
  - destruct (_outstanding_requests_dict w !! reqid) as [data|] eqn:Hl; [| done].
    case_decide; [| done]. exfalso. apply Hin, elem_of_to_expire. eauto.
Qed.

End ExpireSessions.

(** C4, as amended: for every clock reading, session lifetime and
    pending-session table, [expire_sessions] removes exactly the entries with
    [creation_time < now - lifetime] (strictly older than the lifetime),
    keeps every other entry with its data, and touches nothing else in the
    state. *)
Theorem expire_sessions_removes_strictly_older
    {Accounts : Type} (self : SamlHandler) (w : @World Accounts) :
  let w' := (expire_sessions self w).1 in
  (∀ reqid,
     _outstanding_requests_dict w' !! reqid =
     match _outstanding_requests_dict w !! reqid with
     | Some data =>
         if decide (creation_time data < time_msec w - _saml2_session_lifetime self)
         then None else Some data
     | None => None
     end) ∧
  user_external_ids w' = user_external_ids w ∧
  accounts w' = accounts w ∧
  register_user_calls w' = register_user_calls w ∧
  time_msec w' = time_msec w.
Proof.
  split; [| done].
  intros reqid. apply lookup_expire_sessions.
Qed.

(** C4, as stated, fails on the boundary: a session created exactly
    [lifetime] milliseconds ago satisfies [creation_time <= now - lifetime]
    and is kept by the sweep. *)
Lemma expire_sessions_keeps_boundary_entry :
  creation_time (Scenario.session 7)
    <= time_msec (Scenario.world 300007 Scenario.pending ∅ [])
       - _saml2_session_lifetime (Scenario.handler None) ∧
  Scenario.pending !! "id-1" = Some (Scenario.session 7) ∧
  _outstanding_requests_dict
    (expire_sessions (Scenario.handler None)
       (Scenario.world 300007 Scenario.pending ∅ [])).1 !! "id-1"
  = Some (Scenario.session 7).
Proof.
  split; [simpl; lia |]. split; [reflexivity |].
  rewrite lookup_expire_sessions. reflexivity.
Qed.

(** ** The dot-replace normaliser *)

Section NormaliserFacts.

Variable chars : list ascii.
(** The dot itself is a localpart character, and no upper-case letter is. *)
Hypothesis dot_allowed : allowed chars "."%char = true.
Hypothesis allowed_not_upper : ∀ c, allowed chars c = true → is_upper c = false.

(** Every character of the string is a localpart character. *)
Fixpoint all_allowed (s : string) : Prop :=
  match s with
  | EmptyString => True
  | String c s' => allowed chars c = true ∧ all_allowed s'
  end.

Lemma all_allowed_sub (s : string) : all_allowed (DOT_REPLACE_PATTERN_sub chars s).
Proof using dot_allowed.
  induction s as [| c s IH]; simpl; [done |].
  split; [| done]. by destruct (allowed chars c) eqn:Hc.
Qed.

Lemma all_allowed_strip (s : string) :
  all_allowed s → all_allowed (strip_leading_underscore s).
Proof.
  destruct s as [| c s]; simpl; [done |]. intros [Hc Hs].
  destruct c as [[] [] [] [] [] [] [] []]; simpl; auto.
Qed.

Lemma lower_all_allowed (s : string) : all_allowed s → lower s = s.
Proof using allowed_not_upper.
  induction s as [| c s IH]; simpl; [done |]. intros [Hc Hs].
  unfold lower_ascii. rewrite (allowed_not_upper c Hc). by rewrite IH.
Qed.

Lemma sub_all_allowed (s : string) :
  all_allowed s → DOT_REPLACE_PATTERN_sub chars s = s.
Proof.
  induction s as [| c s IH]; simpl; [done |]. intros [Hc Hs].
  by rewrite Hc, IH.
Qed.

(** The result consists of localpart characters only. *)
Lemma dot_replace_for_mxid_all_allowed (x : string) :
  all_allowed (dot_replace_for_mxid chars x).
Proof using dot_allowed.
  unfold dot_replace_for_mxid. apply all_allowed_strip, all_allowed_sub.
Qed.

(** Normalising twice changes nothing as long as the first result does
    not itself begin with an underscore. *)
Lemma dot_replace_for_mxid_twice (x : string) :
  (∀ s, dot_replace_for_mxid chars x ≠ String "_" s) →
  dot_replace_for_mxid chars (dot_replace_for_mxid chars x)
  = dot_replace_for_mxid chars x.
Proof using dot_allowed allowed_not_upper.
  intros Hstart.
  pose proof (dot_replace_for_mxid_all_allowed x) as Hall.
  set (y := dot_replace_for_mxid chars x) in *.
  unfold dot_replace_for_mxid at 1.
  rewrite (lower_all_allowed y Hall), (sub_all_allowed y Hall).
  destruct y as [| c y']; [done |]. simpl.
  destruct c as [[] [] [] [] [] [] [] []]; try done.
  by destruct (Hstart y').
Qed.

End NormaliserFacts.

(** C9: the normaliser is not idempotent.  Whenever the underscore and the
    letter [a] are localpart characters, ["__a"] is normalised to ["_a"],
    which still begins with an underscore, and normalising that gives
    ["a"]. *)
Theorem dot_replace_for_mxid_double_underscore (chars : list ascii) :
  allowed chars "_"%char = true →
  allowed chars "a"%char = true →
  dot_replace_for_mxid chars "__a" = "_a" ∧
  dot_replace_for_mxid chars (dot_replace_for_mxid chars "__a") = "a" ∧
  dot_replace_for_mxid chars (dot_replace_for_mxid chars "__a")
    ≠ dot_replace_for_mxid chars "__a".
Proof.
  intros Hu Ha.
  assert (H1 : dot_replace_for_mxid chars "__a" = "_a").
  { unfold dot_replace_for_mxid. simpl.
    change (lower_ascii "_") with "_"%char. change (lower_ascii "a") with "a"%char.
    by rewrite Hu, Ha. }
  assert (H2 : dot_replace_for_mxid chars "_a" = "a").
  { unfold dot_replace_for_mxid. simpl.
    change (lower_ascii "_") with "_"%char. change (lower_ascii "a") with "a"%char.
    by rewrite Hu, Ha. }
  rewrite H1, H2. done.
Qed.

Lemma dot_replace_for_mxid_double_underscore_witness :
  dot_replace_for_mxid Scenario.mxid_localpart_allowed_characters "__a" = "_a" ∧
  dot_replace_for_mxid Scenario.mxid_localpart_allowed_characters
    (dot_replace_for_mxid Scenario.mxid_localpart_allowed_characters "__a") = "a" ∧
  dot_replace_for_mxid Scenario.mxid_localpart_allowed_characters
    (dot_replace_for_mxid Scenario.mxid_localpart_allowed_characters "__a")
    ≠ dot_replace_for_mxid Scenario.mxid_localpart_allowed_characters "__a".
Proof.
  apply (dot_replace_for_mxid_double_underscore
           Scenario.mxid_localpart_allowed_characters); reflexivity.
Defined.

(** With the Matrix localpart characters the normaliser is idempotent on
    every input whose normal form does not begin with an underscore. *)
Lemma dot_replace_for_mxid_twice_matrix (x : string) :
  (∀ s, dot_replace_for_mxid Scenario.mxid_localpart_allowed_characters x
        ≠ String "_" s) →
  dot_replace_for_mxid Scenario.mxid_localpart_allowed_characters
    (dot_replace_for_mxid Scenario.mxid_localpart_allowed_characters x)
  = dot_replace_for_mxid Scenario.mxid_localpart_allowed_characters x.
Proof.
  apply dot_replace_for_mxid_twice; [reflexivity |].
  intros c. destruct c as [[] [] [] [] [] [] [] []]; vm_compute; congruence.
Qed.

(** ** The default mapping provider *)

Example str_examples : str 0 = "0" ∧ str 6 = "6" ∧ str 10 = "10" ∧ str 999 = "999".
Proof. repeat split. Qed.

Lemma append_empty_r (s : string) : s +:+ "" = s.
Proof.
  induction s as [| c s IH]; [done |].
  change (String c (s +:+ "") = String c s). by rewrite IH.
Qed.

(** C8: when the assertion carries the configured source attribute with
    first value [v], every user-attribute dict the default provider returns
    for attempt [failures] has as [mxid_localpart] the mapped value of [v],
    bare for attempt 0 and followed by the decimal attempt number otherwise;
    and the provider does return one unless [displayName] is present with an
    empty list of values, in which case indexing it raises. *)
Theorem default_provider_localpart_candidate
    (self : DefaultSamlMappingProvider.t) (saml_response : AuthnResponse)
    (failures : nat) (client_redirect_url v : string) (vs : list string) :
  ava saml_response !! DefaultSamlMappingProvider._mxid_source_attribute self
    = Some (v :: vs) →
  let normalize := DefaultSamlMappingProvider._mxid_mapper self in
  let candidate :=
    if decide (failures = 0%nat) then normalize v
    else normalize v +:+ str failures in
  match DefaultSamlMappingProvider.saml_response_to_user_attributes
          self saml_response failures client_redirect_url with
  | inr attribute_dict => mxid_localpart attribute_dict = Some candidate
  | inl e => e = IndexError ∧ ava saml_response !! "displayName" = Some []
  end.
Proof.
  intros Hsrc normalize candidate.
  unfold DefaultSamlMappingProvider.saml_response_to_user_attributes.
  rewrite Hsrc. subst candidate normalize.
  assert (Hcand :
    DefaultSamlMappingProvider._mxid_mapper self v +:+
      match failures with O => "" | S _ => str failures end
    = if decide (failures = 0%nat)
      then DefaultSamlMappingProvider._mxid_mapper self v
      else DefaultSamlMappingProvider._mxid_mapper self v +:+ str failures).
  { destruct failures; [| done]. rewrite decide_True by done.
    apply append_empty_r. }
  destruct (ava saml_response !! "displayName") as [[| d ds] |];
    simpl; rewrite ?Hcand; done.
Qed.

Lemma default_provider_localpart_candidate_witness :
  ava Scenario.alice_response !! "uid" = Some ["alice"] ∧
  match DefaultSamlMappingProvider.saml_response_to_user_attributes
          Scenario.default_provider Scenario.alice_response 6 "https://client/cb" with
  | inr attribute_dict => mxid_localpart attribute_dict = Some "alice6"
  | inl e => e = IndexError ∧ ava Scenario.alice_response !! "displayName" = Some []
  end.
Proof.
  split; [reflexivity |].
  exact (default_provider_localpart_candidate
           Scenario.default_provider Scenario.alice_response 6
           "https://client/cb" "alice" [] eq_refl).
Defined.

(** C10: [get_remote_user_id] of the default provider reads the attribute
    [uid] whatever the provider was configured with: two providers built from
    any two configurations give the same answer, which is the first value of
    [uid], and a 400 error when the assertion has no [uid]. *)
Theorem default_provider_remote_user_id_is_uid
    (config config' : SamlConfig) (grandfathered grandfathered' : option string)
    (saml_response : AuthnResponse) (client_redirect_url : string) :
  let self := DefaultSamlMappingProvider.__init__ config grandfathered in
  let self' := DefaultSamlMappingProvider.__init__ config' grandfathered' in
  DefaultSamlMappingProvider.get_remote_user_id self saml_response client_redirect_url
  = DefaultSamlMappingProvider.get_remote_user_id self' saml_response client_redirect_url
  ∧ (∀ v vs, ava saml_response !! "uid" = Some (v :: vs) →
       DefaultSamlMappingProvider.get_remote_user_id
         self saml_response client_redirect_url = inr v)
  ∧ (ava saml_response !! "uid" = None →
       DefaultSamlMappingProvider.get_remote_user_id
         self saml_response client_redirect_url
       = inl (SynapseError 400 "'uid' not in SAML2 response")).
Proof.
  simpl. unfold DefaultSamlMappingProvider.get_remote_user_id.
  split; [done |]. split.
  - by intros v vs ->.
  - by intros ->.
Qed.

(** A provider configured to take the localpart from [email] still takes the
    remote user id from [uid]; only the candidate localpart follows the
    configured attribute. *)
Example remote_user_id_with_other_source_attribute :
  let config :=
    {| mxid_source_attribute := "email";
       mxid_mapper :=
         dot_replace_for_mxid Scenario.mxid_localpart_allowed_characters |} in
  let self := DefaultSamlMappingProvider.__init__ config None in
  let saml_response :=
    {| not_signed := false;
       ava := {[ "uid" := ["u-17"]; "email" := ["Al@example.org"] ]};
       in_response_to := None |} in
  DefaultSamlMappingProvider.get_remote_user_id self saml_response "" = inr "u-17" ∧
  DefaultSamlMappingProvider.saml_response_to_user_attributes
    self saml_response 0 ""
  = inr {| mxid_localpart := Some "al.example.org"; displayname := None;
           emails := Some ["Al@example.org"] |} ∧
  DefaultSamlMappingProvider.get_remote_user_id self
    {| not_signed := false; ava := {[ "email" := ["Al@example.org"] ]};
       in_response_to := None |} ""
  = inl (SynapseError 400 "'uid' not in SAML2 response").
Proof. vm_compute. done. Qed.

Lemma default_provider_remote_user_id_is_uid_witness :
  DefaultSamlMappingProvider.get_remote_user_id
    (DefaultSamlMappingProvider.__init__
       {| mxid_source_attribute := "email"; mxid_mapper := lower |} None)
    {| not_signed := false;
       ava := {[ "uid" := ["u-17"]; "email" := ["Al@example.org"] ]};
       in_response_to := None |} ""
  = inr "u-17".
Proof.
  apply (proj1 (proj2
           (default_provider_remote_user_id_is_uid
              {| mxid_source_attribute := "email"; mxid_mapper := lower |}
              {| mxid_source_attribute := "uid"; mxid_mapper := lower |}
              None None
              {| not_signed := false;
                 ava := {[ "uid" := ["u-17"]; "email" := ["Al@example.org"] ]};
                 in_response_to := None |} ""))
           "u-17" []).
  reflexivity.
Defined.

(** ** Resolution of a response to a user *)

Section ResolverFacts.

Context {Accounts Request : Type}.
Variable parse_string : Request -> string -> result string.
Variable parse_authn_request_response :
  string -> gmap string Saml2SessionData -> string + AuthnResponse.
Variable get_users_by_id_case_insensitive :
  Accounts -> string -> list (string * string).
Variable register_user :
  Accounts -> string -> option string -> list string -> Accounts * result string.
Variable map_username_to_mxid_localpart : string -> string.
Variable UserID_to_string : string -> string -> string.

Abbreviation loop :=
  (mapping_loop get_users_by_id_case_insensitive UserID_to_string).
Abbreviation fallback :=
  (grandfathered_mapping get_users_by_id_case_insensitive
     map_username_to_mxid_localpart UserID_to_string).
Abbreviation resolve :=
  (_map_saml_response_to_user parse_authn_request_response
     get_users_by_id_case_insensitive register_user
     map_username_to_mxid_localpart UserID_to_string).
Abbreviation handle :=
  (handle_saml_response parse_string parse_authn_request_response
     get_users_by_id_case_insensitive register_user
     map_username_to_mxid_localpart UserID_to_string).

Implicit Types (w : @World Accounts) (self : SamlHandler)
  (saml2_auth : AuthnResponse).

Ltac run :=
  unfold bind, lift, ret, raise, get_user_by_external_id,
    record_user_external_id, call_get_users_by_id_case_insensitive,
    call_register_user in *.

(** *** The mapping loop *)

(** The loop only reads the state. *)
Lemma mapping_loop_state self saml2_auth url indices w :
  (loop self saml2_auth url indices w).1 = w.
Proof.
  induction indices as [| i rest IH]; simpl; [done |]. run.
  destruct (saml_response_to_user_attributes _ _ _ _) as [e | d]; [done |].
  destruct (mxid_localpart d) as [[| c lp] |]; try done.
  destruct (get_users_by_id_case_insensitive _ _); [done | apply IH].
Qed.

Lemma mapping_loop_seq self saml2_auth url w
    (attrs : nat → UserAttributes) (lp : nat → string) (n : nat) :
  ∀ a k : nat,
  (a ≤ k ≤ a + n)%nat →
  (∀ j, (a ≤ j)%nat → (j ≤ k)%nat → (j < a + n)%nat →
     saml_response_to_user_attributes (_user_mapping_provider self)
       saml2_auth j url = inr (attrs j) ∧
     mxid_localpart (attrs j) = Some (lp j) ∧ truthy (lp j) = true) →
  (∀ j, (a ≤ j)%nat → (j < k)%nat →
     get_users_by_id_case_insensitive (accounts w)
       (UserID_to_string (lp j) (_hostname self)) ≠ []) →
  ((k < a + n)%nat →
     get_users_by_id_case_insensitive (accounts w)
       (UserID_to_string (lp k) (_hostname self)) = []) →
  loop self saml2_auth url (seq a n) w =
  (w, if decide (k < a + n)%nat
      then inr (lp k, displayname (attrs k), default [] (emails (attrs k)))
      else inl (SynapseError 500
                  "Unable to generate a Matrix ID from the SAML response")).
Proof.
  induction n as [| n IH]; intros a k Hk Hattrs Htaken Hfree.
  - simpl. rewrite decide_False by lia. done.
  - simpl. run.
    destruct (decide (k = a)) as [-> | Hne].
    + destruct (Hattrs a) as (-> & Hlp & Ht); [lia.. |].
      rewrite Hlp. destruct (lp a) as [| c s] eqn:Ea; [done |].
      rewrite Hfree by lia. rewrite decide_True by lia. done.
    + destruct (Hattrs a) as (-> & Hlp & Ht); [lia.. |].
      assert (Ha : get_users_by_id_case_insensitive (accounts w)
                     (UserID_to_string (lp a) (_hostname self)) ≠ [])
        by (apply Htaken; lia).
      rewrite Hlp. destruct (lp a) as [| c s] eqn:Ea; [done |].
      destruct (get_users_by_id_case_insensitive (accounts w)
                  (UserID_to_string (String c s) (_hostname self))) eqn:Eu;
        [done |].
      rewrite (IH (S a) k); [| lia | | |].
      * destruct (decide (k < S a + n)%nat), (decide (k < a + S n)%nat);
          done || lia.
      * intros j ? ? ?. apply Hattrs; lia.
      * intros j ? ?. apply Htaken; lia.
      * intros ?. apply Hfree; lia.
Qed.

(** The loop over the indices 0 to 999, taken by itself: it leaves with the
    candidate of the first attempt that is free, and raises the 500 error
    when all are taken. *)
Theorem mapping_loop_selects_first_free self saml2_auth url w
    (attrs : nat → UserAttributes) (lp : nat → string) (k : nat) :
  (k ≤ 1000)%nat →
  (∀ j, (j ≤ k)%nat → (j < 1000)%nat →
     saml_response_to_user_attributes (_user_mapping_provider self)
       saml2_auth j url = inr (attrs j) ∧
     mxid_localpart (attrs j) = Some (lp j) ∧ truthy (lp j) = true) →
  (∀ j, (j < k)%nat →
     get_users_by_id_case_insensitive (accounts w)
       (UserID_to_string (lp j) (_hostname self)) ≠ []) →
  ((k < 1000)%nat →
     get_users_by_id_case_insensitive (accounts w)
       (UserID_to_string (lp k) (_hostname self)) = []) →
  loop self saml2_auth url (seq 0 1000) w =
  (w, if decide (k < 1000)%nat
      then inr (lp k, displayname (attrs k), default [] (emails (attrs k)))
      else inl (SynapseError 500
                  "Unable to generate a Matrix ID from the SAML response")).
Proof.
  intros Hk Hattrs Htaken Hfree.
  apply (mapping_loop_seq self saml2_auth url w attrs lp 1000 0 k); auto with lia.
Qed.

(** *** Popping the session *)

(** [pop] returns the session stored under the key, if any, removes it,
    and changes nothing else. *)
Lemma pop_outstanding_spec (key : option string) w :
  ∃ w',
    pop_outstanding key w
      = (w', inr (key ≫= fun reqid => _outstanding_requests_dict w !! reqid)) ∧
    _outstanding_requests_dict w'
      = match key with
        | Some reqid => delete reqid (_outstanding_requests_dict w)
        | None => _outstanding_requests_dict w
        end ∧
    user_external_ids w' = user_external_ids w ∧
    accounts w' = accounts w ∧
    register_user_calls w' = register_user_calls w ∧
    time_msec w' = time_msec w.
Proof.
  unfold pop_outstanding. destruct key as [reqid |]; simpl.
  - destruct (_outstanding_requests_dict w !! reqid) as [data |] eqn:Hl.
    + eexists. split; [reflexivity |]. done.
    + exists w. split; [done |]. split; [| done].
      symmetry. by apply delete_id.
  - exists w. done.
Qed.

(** *** The backwards-compatibility block *)

(** The block either falls through without touching the state, raises
    without touching the state, or records the binding to the first user
    returned by the lookup and returns that user. *)
Lemma grandfathered_mapping_cases self saml2_auth remote_user_id w :
  (∃ r, fallback self saml2_auth remote_user_id w = (w, r) ∧
        (r = inr None ∨ ∃ e, r = inl e)) ∨
  (∃ user_id,
     fallback self saml2_auth remote_user_id w
     = (set_user_external_ids
          (<[(_auth_provider_id, remote_user_id) := user_id]>
             (user_external_ids w)) w,
        inr (Some user_id))).
Proof.
  unfold grandfathered_mapping.
  destruct (_grandfathered_mxid_source_attribute self) as [attribute |];
    [| left; eexists; split; [reflexivity | auto]].
  destruct (negb (truthy attribute));
    [left; eexists; split; [reflexivity | auto] |].
  destruct (ava saml2_auth !! attribute) as [[| attrval vals] |];
    [left; eexists; split; [reflexivity | eauto] | |
     left; eexists; split; [reflexivity | auto]].
  run.
  destruct (get_users_by_id_case_insensitive _ _) as [| [user_id hash] users];
    [left; eexists; split; [reflexivity | auto] |].
  right. exists user_id. reflexivity.
Qed.

(** *** The runs of [_map_saml_response_to_user] *)

Section Runs.

Variables (self : SamlHandler) (resp_bytes client_redirect_url : string).
Variable w : @World Accounts.

(** The response was parsed, is signed, and its session was popped,
    leaving the state [w1]. *)
Definition popped saml2_auth w1 (current_session : option Saml2SessionData) : Prop :=
  parse_authn_request_response resp_bytes (_outstanding_requests_dict w)
    = inr saml2_auth ∧
  not_signed saml2_auth = false ∧
  pop_outstanding (in_response_to saml2_auth) w = (w1, inr current_session).

(** ... and the mapping provider extracted a remote user id. *)
Definition identified saml2_auth w1 current_session (remote_user_id : string) : Prop :=
  popped saml2_auth w1 current_session ∧
  get_remote_user_id (_user_mapping_provider self) saml2_auth
    client_redirect_url = inr remote_user_id ∧
  truthy remote_user_id = true.

(** ... for which the external-id table has no user. *)
Definition unbound saml2_auth w1 current_session remote_user_id : Prop :=
  identified saml2_auth w1 current_session remote_user_id ∧
  user_external_ids w1 !! (_auth_provider_id, remote_user_id) = None.

(** ... and the backwards-compatibility block fell through. *)
Definition provisioning saml2_auth w1 current_session remote_user_id : Prop :=
  unbound saml2_auth w1 current_session remote_user_id ∧
  fallback self saml2_auth remote_user_id w1 = (w1, inr None).

(** The ways in which the function ends, with the final state and the
    value returned or the exception raised. *)
Inductive run_of : World * result (string * option Saml2SessionData) → Prop :=
| run_unparseable e :
    parse_authn_request_response resp_bytes (_outstanding_requests_dict w)
      = inl e →
    run_of (w, inl (SynapseError 400 ("Unable to parse SAML2 response: " +:+ e)))
| run_not_signed saml2_auth :
    parse_authn_request_response resp_bytes (_outstanding_requests_dict w)
      = inr saml2_auth →
    not_signed saml2_auth = true →
    run_of (w, inl (SynapseError 400 "SAML2 response was not signed"))
| run_provider_raised saml2_auth w1 current_session e :
    popped saml2_auth w1 current_session →
    get_remote_user_id (_user_mapping_provider self) saml2_auth
      client_redirect_url = inl e →
    run_of (w1, inl e)
| run_empty_remote_user_id saml2_auth w1 current_session remote_user_id :
    popped saml2_auth w1 current_session →
    get_remote_user_id (_user_mapping_provider self) saml2_auth
      client_redirect_url = inr remote_user_id →
    truthy remote_user_id = false →
    run_of (w1, inl (Exception
                       "Failed to extract remote user id from SAML response"))
| run_existing_mapping saml2_auth w1 current_session remote_user_id user_id :
    identified saml2_auth w1 current_session remote_user_id →
    user_external_ids w1 !! (_auth_provider_id, remote_user_id) = Some user_id →
    run_of (w1, inr (user_id, current_session))
| run_grandfathered_raised saml2_auth w1 current_session remote_user_id e :
    unbound saml2_auth w1 current_session remote_user_id →
    fallback self saml2_auth remote_user_id w1 = (w1, inl e) →
    run_of (w1, inl e)
| run_grandfathered saml2_auth w1 current_session remote_user_id user_id :
    unbound saml2_auth w1 current_session remote_user_id →
    fallback self saml2_auth remote_user_id w1
    = (set_user_external_ids
         (<[(_auth_provider_id, remote_user_id) := user_id]>
            (user_external_ids w1)) w1,
       inr (Some user_id)) →
    run_of (set_user_external_ids
              (<[(_auth_provider_id, remote_user_id) := user_id]>
                 (user_external_ids w1)) w1,
            inr (user_id, current_session))
| run_loop_raised saml2_auth w1 current_session remote_user_id e :
    provisioning saml2_auth w1 current_session remote_user_id →
    loop self saml2_auth client_redirect_url (seq 0 1000) w1 = (w1, inl e) →
    run_of (w1, inl e)
| run_registration_raised saml2_auth w1 current_session remote_user_id
    localpart displayname emails a e :
    provisioning saml2_auth w1 current_session remote_user_id →
    loop self saml2_auth client_redirect_url (seq 0 1000) w1
      = (w1, inr (localpart, displayname, emails)) →
    register_user (accounts w1) localpart displayname emails = (a, inl e) →
    run_of (set_registration a
              {| call_localpart := localpart;
                 call_default_display_name := displayname;
                 call_bind_emails := emails |} w1,
            inl e)
| run_registered saml2_auth w1 current_session remote_user_id
    localpart displayname emails a user_id :
    provisioning saml2_auth w1 current_session remote_user_id →
    loop self saml2_auth client_redirect_url (seq 0 1000) w1
      = (w1, inr (localpart, displayname, emails)) →
    register_user (accounts w1) localpart displayname emails
      = (a, inr user_id) →
    run_of (set_user_external_ids
              (<[(_auth_provider_id, remote_user_id) := user_id]>
                 (user_external_ids w1))
              (set_registration a
                 {| call_localpart := localpart;
                    call_default_display_name := displayname;
                    call_bind_emails := emails |} w1),
            inr (user_id, current_session)).

(** Every call ends in one of these ways. *)
Lemma run_of_resolve : run_of (resolve self resp_bytes client_redirect_url w).
Proof.
  unfold _map_saml_response_to_user. run.
  destruct (parse_authn_request_response _ _) as [e | saml2_auth] eqn:Hparse;
    [by apply run_unparseable |].
  destruct (not_signed saml2_auth) eqn:Hsigned;
    [by eapply run_not_signed |].
  destruct (pop_outstanding_spec (in_response_to saml2_auth) w)
    as (w1 & Hpop & _).
  rewrite Hpop.
  set (current_session :=
         in_response_to saml2_auth ≫=
           fun reqid => _outstanding_requests_dict w !! reqid) in *.
  assert (Hpopped : popped saml2_auth w1 current_session) by done.
  destruct (get_remote_user_id _ _ _) as [e | remote_user_id] eqn:Hid;
    [by eapply run_provider_raised |].
  destruct (truthy remote_user_id) eqn:Htruthy;
    [| by eapply run_empty_remote_user_id].
  assert (Hidentified : identified saml2_auth w1 current_session remote_user_id)
    by done.
  destruct (user_external_ids w1 !! (_auth_provider_id, remote_user_id))
    as [user_id |] eqn:Hbound; [by eapply run_existing_mapping |].
  assert (Hunbound : unbound saml2_auth w1 current_session remote_user_id)
    by done.
  destruct (grandfathered_mapping_cases self saml2_auth remote_user_id w1)
    as [(r & Hfb & [-> | [e ->]]) | (user_id & Hfb)]; rewrite Hfb.
  - assert (Hprov : provisioning saml2_auth w1 current_session remote_user_id)
      by done.
    pose proof (mapping_loop_state self saml2_auth client_redirect_url
                  (seq 0 1000) w1) as Hstate.
    destruct (mapping_loop _ _ _ _ _ _ _) as [w2 [e | [[lp dn] em]]] eqn:Hloop;
      simpl in Hstate; subst w2.
    + by eapply run_loop_raised.
    + destruct (register_user (accounts w1) lp dn em) as [a [e | user_id]] eqn:Hreg;
        simpl.
      * by eapply run_registration_raised.
      * by eapply run_registered.
  - by eapply run_grandfathered_raised.
  - by eapply run_grandfathered.
Qed.

End Runs.

Lemma popped_state resp_bytes w saml2_auth w1 current_session :
  popped resp_bytes w saml2_auth w1 current_session →
  _outstanding_requests_dict w1
    = match in_response_to saml2_auth with
      | Some reqid => delete reqid (_outstanding_requests_dict w)
      | None => _outstanding_requests_dict w
      end ∧
  current_session
    = (in_response_to saml2_auth ≫=
         fun reqid => _outstanding_requests_dict w !! reqid) ∧
  user_external_ids w1 = user_external_ids w ∧
  accounts w1 = accounts w ∧
  register_user_calls w1 = register_user_calls w.
Proof.
  intros (_ & _ & Hpop).
  destruct (pop_outstanding_spec (in_response_to saml2_auth) w)
    as (w' & Hpop' & Hd & Hx & Ha & Hc & _).
  rewrite Hpop in Hpop'. injection Hpop' as -> ->. done.
Qed.

(** A call that raises has written no binding, and has made no change to
    the table of pending sessions beyond popping the session of the
    response once the response was parsed and found signed. *)
Lemma failed_resolution_state self resp_bytes url w w' e :
  resolve self resp_bytes url w = (w', inl e) →
  user_external_ids w' = user_external_ids w ∧
  _outstanding_requests_dict w'
    = match parse_authn_request_response resp_bytes
              (_outstanding_requests_dict w) with
      | inr saml2_auth =>
          if not_signed saml2_auth then _outstanding_requests_dict w
          else match in_response_to saml2_auth with
               | Some reqid => delete reqid (_outstanding_requests_dict w)
               | None => _outstanding_requests_dict w
               end
      | inl _ => _outstanding_requests_dict w
      end.
Proof.
  intros Hres. pose proof (run_of_resolve self resp_bytes url w) as Hrun.
  rewrite Hres in Hrun.
  inversion Hrun as
    [ e0 Hparse | a0 Hparse Hsigned
    | a0 w1 s0 e0 Hp | a0 w1 s0 u0 Hp | a0 w1 s0 u0 r0 Hi
    | a0 w1 s0 u0 e0 Hu | a0 w1 s0 u0 r0 Hu
    | a0 w1 s0 u0 e0 Hv | a0 w1 s0 u0 lp dn em acc e0 Hv
    | a0 w1 s0 u0 lp dn em acc r0 Hv ]; subst;
    try (rewrite Hparse; rewrite ?Hsigned; done);
    try destruct Hv as [Hu _]; try destruct Hu as [Hi _];
    try destruct Hi as [Hp _];
    pose proof Hp as (Hparse & Hsigned & _);
    apply popped_state in Hp as (Hd & _ & Hx & _);
    rewrite Hparse, Hsigned; done.
Qed.

(** *** Fresh provisioning *)

(** Once the backwards-compatibility block has fallen through, the function
    runs the mapping loop over the attempts 0 to 999, registers the
    localpart the loop leaves with, and binds the remote user id to the
    user registered. *)
Lemma resolve_provisioning self resp_bytes url w saml2_auth w1
    current_session remote_user_id :
  provisioning self resp_bytes url w saml2_auth w1 current_session
    remote_user_id →
  resolve self resp_bytes url w
  = match loop self saml2_auth url (seq 0 1000) w1 with
    | (_, inl e) => (w1, inl e)
    | (_, inr (localpart, default_display_name, bind_emails)) =>
        match register_user (accounts w) localpart default_display_name
                bind_emails with
        | (a, inl e) =>
            (set_registration a
               {| call_localpart := localpart;
                  call_default_display_name := default_display_name;
                  call_bind_emails := bind_emails |} w1,
             inl e)
        | (a, inr user_id) =>
            (set_user_external_ids
               (<[(_auth_provider_id, remote_user_id) := user_id]>
                  (user_external_ids w))
               (set_registration a
                  {| call_localpart := localpart;
                     call_default_display_name := default_display_name;
                     call_bind_emails := bind_emails |} w1),
             inr (user_id, current_session))
        end
    end.
Proof.
  intros ((((Hparse & Hsigned & Hpop) & Hid & Htruthy) & Hbound) & Hfb).
  destruct (pop_outstanding_spec (in_response_to saml2_auth) w)
    as (w1' & Hpop' & _ & Hx & Ha & _).
  rewrite Hpop in Hpop'. injection Hpop' as <- _.
  pose proof (mapping_loop_state self saml2_auth url (seq 0 1000) w1) as Hstate.
  unfold _map_saml_response_to_user.
  set (indices := seq 0 1000) in *. run.
  rewrite Hparse, Hsigned, Hpop, Hid, Htruthy, Hbound, Hfb.
  destruct (mapping_loop _ _ _ _ _ indices w1) as [w2 [e | [[lp dn] em]]];
    simpl in Hstate; subst w2; [done |].
  rewrite Ha.
  destruct (register_user (accounts w) lp dn em) as [a [e | user_id]];
    simpl; [done |]. by rewrite Hx.
Qed.

(** C1: in fresh provisioning (the response is parsed and signed, its
    remote user id is extracted and unbound, and the backwards-compatibility
    block has fallen through) the function tries the attempts 0, 1, ... in
    order, up to 1000 of them.  If the attempts below [k] all give a
    localpart whose user id is already taken (case-insensitively) and
    attempt [k] gives one that is free, [register_user] is called with the
    localpart, display name and emails of attempt [k], and the outcome is
    that of the registration: its exception, or the new user bound to the
    remote user id and returned.  If all 1000 attempts are taken
    ([k = 1000]) the function raises the 500 error without registering or
    binding anything. *)
Theorem resolver_selects_first_free self resp_bytes url w saml2_auth w1
    (current_session : option Saml2SessionData) (u : string)
    (attrs : nat → UserAttributes) (lp : nat → string) (k : nat) :
  parse_authn_request_response resp_bytes (_outstanding_requests_dict w)
    = inr saml2_auth →
  not_signed saml2_auth = false →
  pop_outstanding (in_response_to saml2_auth) w = (w1, inr current_session) →
  get_remote_user_id (_user_mapping_provider self) saml2_auth url = inr u →
  truthy u = true →
  user_external_ids w !! (_auth_provider_id, u) = None →
  fallback self saml2_auth u w1 = (w1, inr None) →
  (k ≤ 1000)%nat →
  (∀ j, (j ≤ k)%nat → (j < 1000)%nat →
     saml_response_to_user_attributes (_user_mapping_provider self)
       saml2_auth j url = inr (attrs j) ∧
     mxid_localpart (attrs j) = Some (lp j) ∧ truthy (lp j) = true) →
  (∀ j, (j < k)%nat →
     get_users_by_id_case_insensitive (accounts w)
       (UserID_to_string (lp j) (_hostname self)) ≠ []) →
  ((k < 1000)%nat →
     get_users_by_id_case_insensitive (accounts w)
       (UserID_to_string (lp k) (_hostname self)) = []) →
  resolve self resp_bytes url w
  = if decide (k < 1000)%nat
    then
      match register_user (accounts w) (lp k) (displayname (attrs k))
              (default [] (emails (attrs k))) with
      | (a, inl e) =>
          (set_registration a
             {| call_localpart := lp k;
                call_default_display_name := displayname (attrs k);
                call_bind_emails := default [] (emails (attrs k)) |} w1,
           inl e)
      | (a, inr user_id) =>
          (set_user_external_ids
             (<[(_auth_provider_id, u) := user_id]> (user_external_ids w))
             (set_registration a
                {| call_localpart := lp k;
                   call_default_display_name := displayname (attrs k);
                   call_bind_emails := default [] (emails (attrs k)) |} w1),
           inr (user_id, current_session))
      end
    else
      (w1, inl (SynapseError 500
                  "Unable to generate a Matrix ID from the SAML response")).
Proof.
  intros Hparse Hsigned Hpop Hid Htruthy Hbound Hfb Hk Hattrs Htaken Hfree.
  destruct (pop_outstanding_spec (in_response_to saml2_auth) w)
    as (w1' & Hpop' & _ & Hx & Ha & _).
  rewrite Hpop in Hpop'. injection Hpop' as <- _.
  rewrite (resolve_provisioning self resp_bytes url w saml2_auth w1
             current_session u).
  2: { repeat split; try done. by rewrite Hx. }
  rewrite (mapping_loop_seq self saml2_auth url w1 attrs lp 1000 0 k).
  - change (0 + 1000)%nat with 1000%nat.
    by destruct (decide (k < 1000)%nat).
  - lia.
  - intros j _ Hj Hlt. by apply Hattrs.
  - intros j _ Hj. rewrite Ha. by apply Htaken.
  - intros Hlt. rewrite Ha. by apply Hfree.
Qed.

(** *** Existing mapping *)

(** C2: when the response is parsed and signed, the mapping provider
    extracts the remote user id [u] (a non-empty string, so that the check
    on the extracted id passes), and the external-id table has a user for
    [u] under the provider ["saml"], the function returns that user with the
    popped session; [register_user] is not called, and neither the account
    tables nor the external-id table change. *)
Theorem existing_mapping_returned self resp_bytes url w saml2_auth
    (u registered_user_id : string) :
  parse_authn_request_response resp_bytes (_outstanding_requests_dict w)
    = inr saml2_auth →
  not_signed saml2_auth = false →
  get_remote_user_id (_user_mapping_provider self) saml2_auth url = inr u →
  truthy u = true →
  user_external_ids w !! (_auth_provider_id, u) = Some registered_user_id →
  ∃ w1 current_session,
    pop_outstanding (in_response_to saml2_auth) w = (w1, inr current_session) ∧
    resolve self resp_bytes url w = (w1, inr (registered_user_id, current_session)) ∧
    register_user_calls w1 = register_user_calls w ∧
    accounts w1 = accounts w ∧
    user_external_ids w1 = user_external_ids w.
Proof.
  intros Hparse Hsigned Hid Htruthy Hbound.
  destruct (pop_outstanding_spec (in_response_to saml2_auth) w)
    as (w1 & Hpop & _ & Hx & Ha & Hc & _).
  exists w1. eexists. split; [exact Hpop |]. split; [| done].
  unfold _map_saml_response_to_user. run.
  by rewrite Hparse, Hsigned, Hpop, Hid, Htruthy, Hx, Hbound.
Qed.

(** *** Grandfathered accounts *)

(** C3, as amended: when no mapping exists for the remote user id and the
    grandfathered attribute is configured and present, the case-insensitive
    lookup of the mapped user id decides.  If it returns at least one user,
    the first user returned is recorded in the external-id table and
    returned, without any call of [register_user].  If it returns none,
    nothing is recorded for it and the function goes on to fresh
    provisioning: the mapping loop over the attempts 0 to 999, then
    [register_user] for the localpart the loop leaves with, then the binding
    of the remote user id to the user registered. *)
Theorem grandfathered_binds_first_match self resp_bytes url w saml2_auth
    w1 (current_session : option Saml2SessionData)
    (u attribute attrval : string) (vals : list string) :
  parse_authn_request_response resp_bytes (_outstanding_requests_dict w)
    = inr saml2_auth →
  not_signed saml2_auth = false →
  pop_outstanding (in_response_to saml2_auth) w = (w1, inr current_session) →
  get_remote_user_id (_user_mapping_provider self) saml2_auth url = inr u →
  truthy u = true →
  user_external_ids w !! (_auth_provider_id, u) = None →
  _grandfathered_mxid_source_attribute self = Some attribute →
  truthy attribute = true →
  ava saml2_auth !! attribute = Some (attrval :: vals) →
  register_user_calls w1 = register_user_calls w ∧
  accounts w1 = accounts w ∧
  user_external_ids w1 = user_external_ids w ∧
  match get_users_by_id_case_insensitive (accounts w)
          (UserID_to_string (map_username_to_mxid_localpart attrval)
             (_hostname self)) with
  | (registered_user_id, _) :: _ =>
      resolve self resp_bytes url w
      = (set_user_external_ids
           (<[(_auth_provider_id, u) := registered_user_id]>
              (user_external_ids w)) w1,
         inr (registered_user_id, current_session))
  | [] =>
      resolve self resp_bytes url w
      = match loop self saml2_auth url (seq 0 1000) w1 with
        | (_, inl e) => (w1, inl e)
        | (_, inr (localpart, default_display_name, bind_emails)) =>
            match register_user (accounts w) localpart default_display_name
                    bind_emails with
            | (a, inl e) =>
                (set_registration a
                   {| call_localpart := localpart;
                      call_default_display_name := default_display_name;
                      call_bind_emails := bind_emails |} w1,
                 inl e)
            | (a, inr user_id) =>
                (set_user_external_ids
                   (<[(_auth_provider_id, u) := user_id]> (user_external_ids w))
                   (set_registration a
                      {| call_localpart := localpart;
                         call_default_display_name := default_display_name;
                         call_bind_emails := bind_emails |} w1),
                 inr (user_id, current_session))
            end
        end
  end.
Proof.
  intros Hparse Hsigned Hpop Hid Htruthy Hbound Hattr Hta Hava.
  destruct (pop_outstanding_spec (in_response_to saml2_auth) w)
    as (w1' & Hpop' & _ & Hx & Ha & Hc & _).
  rewrite Hpop in Hpop'. injection Hpop' as <- _.
  split; [done |]. split; [done |]. split; [done |].
  destruct (get_users_by_id_case_insensitive (accounts w) _)
    as [| [registered_user_id hash] users] eqn:Husers.
  - apply resolve_provisioning. repeat split; try done; [by rewrite Hx |].
    unfold grandfathered_mapping. rewrite Hattr, Hta, Hava. run. simpl.
    by rewrite Ha, Husers.
  - unfold _map_saml_response_to_user, grandfathered_mapping. run.
    rewrite Hparse, Hsigned, Hpop, Hid, Htruthy, Hx, Hbound.
    rewrite Hattr, Hta, Hava. simpl. rewrite Ha, Husers. simpl.
    by rewrite Hx.
Qed.

(** *** Registration before binding *)

(** C7: in every call that invoked [register_user] (the call [c] was added
    to the log), the outcome follows the registration handler.  If it
    raised, the same exception leaves the function and the external-id
    table is as before the call; if it returned a user id, that id is
    returned and the external-id table is the old one extended by the
    binding of the remote user id, which was unbound. *)
Theorem binding_recorded_after_registration self resp_bytes url w w' res
    (c : RegisterCall) :
  resolve self resp_bytes url w = (w', res) →
  register_user_calls w' = (register_user_calls w ++ [c])%list →
  match register_user (accounts w) (call_localpart c)
          (call_default_display_name c) (call_bind_emails c) with
  | (a, inl e) =>
      res = inl e ∧ user_external_ids w' = user_external_ids w ∧ accounts w' = a
  | (a, inr user_id) =>
      ∃ remote_user_id current_session,
        res = inr (user_id, current_session) ∧
        user_external_ids w !! (_auth_provider_id, remote_user_id) = None ∧
        user_external_ids w'
          = <[(_auth_provider_id, remote_user_id) := user_id]>
              (user_external_ids w) ∧
        accounts w' = a
  end.
Proof.
  intros Hres Hlog.
  pose proof (run_of_resolve self resp_bytes url w) as Hrun.
  rewrite Hres in Hrun.
  assert (Hno : ∀ l : list RegisterCall, l ≠ (l ++ [c])%list).
  { intros l Heq. apply (f_equal length) in Heq.
    rewrite length_app in Heq. simpl in Heq. lia. }
  inversion Hrun as
    [ e0 Hparse | a0 Hparse Hsigned
    | a0 w1 s0 e0 Hp | a0 w1 s0 u0 Hp | a0 w1 s0 u0 r0 Hi
    | a0 w1 s0 u0 e0 Hu | a0 w1 s0 u0 r0 Hu
    | a0 w1 s0 u0 e0 Hv | a0 w1 s0 u0 lp dn em acc e0 Hv Hloop Hreg
    | a0 w1 s0 u0 lp dn em acc r0 Hv Hloop Hreg ]; subst;
    try (by destruct (Hno _ Hlog));
    try destruct Hv as [Hu _]; try pose proof Hu as [Hi Hnone];
    try destruct Hi as [Hp _];
    apply popped_state in Hp as (_ & _ & Hx & Ha & Hc);
    simpl in Hlog; rewrite ?Hc in Hlog;
    try (by destruct (Hno _ Hlog)).
  - apply app_inj_tail in Hlog as [_ <-]. simpl.
    rewrite <- Ha, Hreg. simpl. by rewrite Hx.
  - apply app_inj_tail in Hlog as [_ <-]. simpl.
    rewrite <- Ha, Hreg. exists u0, s0. simpl. by rewrite <- Hx.
Qed.

(** *** What every run keeps *)

(** The loop over any run of indices leaves only with a non-empty localpart
    that is free, produced at an index before which every candidate was
    non-empty and taken. *)
Lemma mapping_loop_seq_sound self saml2_auth url w (n : nat) :
  ∀ (a : nat) w' localpart default_display_name bind_emails,
  loop self saml2_auth url (seq a n) w = (w', inr (localpart, default_display_name, bind_emails)) →
  ∃ (i : nat) attribute_dict,
    (a ≤ i < a + n)%nat ∧
    saml_response_to_user_attributes (_user_mapping_provider self)
      saml2_auth i url = inr attribute_dict ∧
    mxid_localpart attribute_dict = Some localpart ∧
    truthy localpart = true ∧
    default_display_name = displayname attribute_dict ∧
    bind_emails = default [] (emails attribute_dict) ∧
    get_users_by_id_case_insensitive (accounts w)
      (UserID_to_string localpart (_hostname self)) = [] ∧
    ∀ j, (a ≤ j < i)%nat →
      ∃ d lp,
        saml_response_to_user_attributes (_user_mapping_provider self)
          saml2_auth j url = inr d ∧
        mxid_localpart d = Some lp ∧ truthy lp = true ∧
        get_users_by_id_case_insensitive (accounts w)
          (UserID_to_string lp (_hostname self)) ≠ [].
Proof.
  induction n as [| n IH]; intros a w' localpart dn em Hloop; simpl in Hloop.
  { discriminate Hloop. }
  run.
  destruct (saml_response_to_user_attributes _ _ a _) as [e | d] eqn:Hd;
    [discriminate Hloop |].
  destruct (mxid_localpart d) as [[| c lp] |] eqn:Hlp; try discriminate Hloop.
  destruct (get_users_by_id_case_insensitive (accounts w)
              (UserID_to_string (String c lp) (_hostname self))) eqn:Husers.
  - injection Hloop as <- <- <- <-.
    exists a, d. repeat split; try done; try lia.
    all: intros j Hj; lia.
  - apply IH in Hloop as (i & d' & Hi & Hd' & Hlp' & Ht & Hdn & Hem & Hfree & Hbefore).
    exists i, d'. repeat split; try done; try lia.
    intros j Hj. destruct (decide (j = a)) as [-> | Hne].
    + exists d, (String c lp). rewrite Husers. done.
    + apply Hbefore. lia.
Qed.

(** X11: when the mapping loop leaves with a localpart, that localpart is
    not empty and has no case-insensitive match among the accounts; it is
    the candidate of some attempt below 1000, whose display name and emails
    come with it, and the candidate of every earlier attempt was taken. *)
Theorem mapping_loop_result_is_first_free self saml2_auth url w w'
    (localpart : string) (default_display_name : option string)
    (bind_emails : list string) :
  loop self saml2_auth url (seq 0 1000) w
    = (w', inr (localpart, default_display_name, bind_emails)) →
  ∃ (i : nat) attribute_dict,
    (i < 1000)%nat ∧
    saml_response_to_user_attributes (_user_mapping_provider self)
      saml2_auth i url = inr attribute_dict ∧
    mxid_localpart attribute_dict = Some localpart ∧
    localpart ≠ "" ∧
    default_display_name = displayname attribute_dict ∧
    bind_emails = default [] (emails attribute_dict) ∧
    get_users_by_id_case_insensitive (accounts w)
      (UserID_to_string localpart (_hostname self)) = [] ∧
    ∀ j, (j < i)%nat →
      ∃ d lp,
        saml_response_to_user_attributes (_user_mapping_provider self)
          saml2_auth j url = inr d ∧
        mxid_localpart d = Some lp ∧
        get_users_by_id_case_insensitive (accounts w)
          (UserID_to_string lp (_hostname self)) ≠ [].
Proof.
  intros Hloop.
  apply mapping_loop_seq_sound in Hloop
    as (i & d & Hi & Hd & Hlp & Ht & Hdn & Hem & Hfree & Hbefore).
  exists i, d. repeat split; try done; try lia.
  - intros ->. discriminate Ht.
  - intros j Hj. destruct (Hbefore j) as (d' & lp & ? & ? & ? & ?); [lia |].
    by exists d', lp.
Qed.

Lemma popped_time resp_bytes w saml2_auth w1 current_session :
  popped resp_bytes w saml2_auth w1 current_session → time_msec w1 = time_msec w.
Proof.
  intros (_ & _ & Hpop).
  destruct (pop_outstanding_spec (in_response_to saml2_auth) w)
    as (w2 & Hpop' & _ & _ & _ & _ & Ht).
  rewrite Hpop in Hpop'. by injection Hpop' as -> _.
Qed.

(** X12: a call never overwrites or removes a binding: every entry of the
    external-id table before the call is in the table after it, with the
    same user. *)
Theorem bindings_never_overwritten self resp_bytes url w w' res
    (key : string * string) (user_id : string) :
  resolve self resp_bytes url w = (w', res) →
  user_external_ids w !! key = Some user_id →
  user_external_ids w' !! key = Some user_id.
Proof.
  intros Hres Hkey.
  pose proof (run_of_resolve self resp_bytes url w) as Hrun.
  rewrite Hres in Hrun.
  inversion Hrun as
    [ e0 Hparse | a0 Hparse Hsigned
    | a0 w1 s0 e0 Hp | a0 w1 s0 u0 Hp | a0 w1 s0 u0 r0 Hi
    | a0 w1 s0 u0 e0 Hu | a0 w1 s0 u0 r0 Hu
    | a0 w1 s0 u0 e0 Hv | a0 w1 s0 u0 lp dn em acc e0 Hv
    | a0 w1 s0 u0 lp dn em acc r0 Hv ]; subst; try done;
    try destruct Hv as [Hu _]; try pose proof Hu as [Hi Hnone];
    try destruct Hi as [Hp _];
    apply popped_state in Hp as (_ & _ & Hx & _);
    simpl; rewrite ?Hx; try done.
  - rewrite Hx in Hnone. rewrite lookup_insert_ne; [done |]. congruence.
  - rewrite Hx in Hnone. rewrite lookup_insert_ne; [done |]. congruence.
Qed.

(** X13: a call invokes [register_user] at most once, and only for a
    non-empty localpart whose user id has no case-insensitive match among
    the accounts; without such a call the account tables are untouched. *)
Theorem registers_once_a_free_localpart self resp_bytes url w w' res :
  resolve self resp_bytes url w = (w', res) →
  (register_user_calls w' = register_user_calls w ∧ accounts w' = accounts w) ∨
  ∃ c,
    register_user_calls w' = (register_user_calls w ++ [c])%list ∧
    call_localpart c ≠ "" ∧
    get_users_by_id_case_insensitive (accounts w)
      (UserID_to_string (call_localpart c) (_hostname self)) = [].
Proof.
  intros Hres.
  pose proof (run_of_resolve self resp_bytes url w) as Hrun.
  rewrite Hres in Hrun.
  inversion Hrun as
    [ e0 Hparse | a0 Hparse Hsigned
    | a0 w1 s0 e0 Hp | a0 w1 s0 u0 Hp | a0 w1 s0 u0 r0 Hi
    | a0 w1 s0 u0 e0 Hu | a0 w1 s0 u0 r0 Hu
    | a0 w1 s0 u0 e0 Hv | a0 w1 s0 u0 lp dn em acc e0 Hv Hloop Hreg
    | a0 w1 s0 u0 lp dn em acc r0 Hv Hloop Hreg ]; subst;
    try (by left);
    try destruct Hv as [Hu _]; try destruct Hu as [Hi _];
    try destruct Hi as [Hp _];
    apply popped_state in Hp as (_ & _ & _ & Ha & Hc);
    try (by left).
  - right. apply mapping_loop_seq_sound in Hloop
      as (i & d & _ & _ & _ & Ht & _ & _ & Hfree & _).
    eexists. simpl. rewrite Hc. split; [reflexivity |]. simpl.
    rewrite <- Ha. split; [| done]. intros ->. discriminate Ht.
  - right. apply mapping_loop_seq_sound in Hloop
      as (i & d & _ & _ & _ & Ht & _ & _ & Hfree & _).
    eexists. simpl. rewrite Hc. split; [reflexivity |]. simpl.
    rewrite <- Ha. split; [| done]. intros ->. discriminate Ht.
Qed.

(** What a call that returns has done. *)
Lemma successful_resolution self resp_bytes url w w' user_id current_session :
  resolve self resp_bytes url w = (w', inr (user_id, current_session)) →
  ∃ saml2_auth remote_user_id,
    parse_authn_request_response resp_bytes (_outstanding_requests_dict w)
      = inr saml2_auth ∧
    not_signed saml2_auth = false ∧
    current_session
      = (in_response_to saml2_auth ≫=
           fun reqid => _outstanding_requests_dict w !! reqid) ∧
    _outstanding_requests_dict w'
      = match in_response_to saml2_auth with
        | Some reqid => delete reqid (_outstanding_requests_dict w)
        | None => _outstanding_requests_dict w
        end ∧
    get_remote_user_id (_user_mapping_provider self) saml2_auth url
      = inr remote_user_id ∧
    truthy remote_user_id = true ∧
    user_external_ids w' !! (_auth_provider_id, remote_user_id) = Some user_id.
Proof.
  intros Hres.
  pose proof (run_of_resolve self resp_bytes url w) as Hrun.
  rewrite Hres in Hrun.
  inversion Hrun as
    [ | | | | a0 w1 s0 u0 r0 Hi Hbound
    | | a0 w1 s0 u0 r0 Hu
    | | | a0 w1 s0 u0 lp dn em acc r0 Hv Hloop Hreg ]; subst;
    try destruct Hv as [Hu _]; try destruct Hu as [Hi _];
    destruct Hi as (Hp & Hid & Ht);
    pose proof Hp as (Hparse & Hsigned & _);
    apply popped_state in Hp as (Hd & Hs & _);
    exists a0, u0; simpl; repeat split; try done;
    apply lookup_insert_eq.
Qed.

(** X14: when a call returns a user, the external-id table afterwards binds
    the remote user id of the response to that user. *)
Theorem resolved_user_is_bound self resp_bytes url w w' user_id current_session :
  resolve self resp_bytes url w = (w', inr (user_id, current_session)) →
  ∃ saml2_auth remote_user_id,
    parse_authn_request_response resp_bytes (_outstanding_requests_dict w)
      = inr saml2_auth ∧
    get_remote_user_id (_user_mapping_provider self) saml2_auth url
      = inr remote_user_id ∧
    user_external_ids w' !! (_auth_provider_id, remote_user_id) = Some user_id.
Proof.
  intros Hres.
  apply successful_resolution in Hres
    as (saml2_auth & u & Hparse & _ & _ & _ & Hid & _ & Hbound).
  by exists saml2_auth, u.
Qed.

(** X15: resolving the same response again, right after a call that
    returned a user, returns the same user with no session and leaves the
    state as it is, in particular without registering anyone; this needs
    only that the parser reads the response as before. *)
Theorem repeated_resolution_returns_same_user self resp_bytes url w w'
    user_id current_session :
  resolve self resp_bytes url w = (w', inr (user_id, current_session)) →
  parse_authn_request_response resp_bytes (_outstanding_requests_dict w')
    = parse_authn_request_response resp_bytes (_outstanding_requests_dict w) →
  resolve self resp_bytes url w' = (w', inr (user_id, None)).
Proof.
  intros Hres Hsame.
  apply successful_resolution in Hres
    as (saml2_auth & u & Hparse & Hsigned & _ & Hd & Hid & Ht & Hbound).
  rewrite Hparse in Hsame.
  assert (Hpop : pop_outstanding (in_response_to saml2_auth) w' = (w', inr None)).
  { unfold pop_outstanding. destruct (in_response_to saml2_auth) as [reqid |]; [| done].
    by rewrite Hd, lookup_delete_eq. }
  unfold _map_saml_response_to_user. run.
  by rewrite Hsame, Hsigned, Hpop, Hid, Ht, Hbound.
Qed.

(** X16: a call never adds a pending session and never moves the clock; the
    only entry it can remove from the table is the one under the
    [in_response_to] of a response that was parsed and found signed. *)
Theorem pending_table_loses_at_most_answered_request self resp_bytes url w w' res :
  resolve self resp_bytes url w = (w', res) →
  time_msec w' = time_msec w ∧
  (_outstanding_requests_dict w' = _outstanding_requests_dict w ∨
   ∃ saml2_auth reqid,
     parse_authn_request_response resp_bytes (_outstanding_requests_dict w)
       = inr saml2_auth ∧
     not_signed saml2_auth = false ∧
     in_response_to saml2_auth = Some reqid ∧
     _outstanding_requests_dict w' = delete reqid (_outstanding_requests_dict w)).
Proof.
  intros Hres.
  pose proof (run_of_resolve self resp_bytes url w) as Hrun.
  rewrite Hres in Hrun.
  assert (Hpopped : ∀ saml2_auth w1 s0 (w2 : @World Accounts),
    popped resp_bytes w saml2_auth w1 s0 →
    time_msec w2 = time_msec w1 →
    _outstanding_requests_dict w2 = _outstanding_requests_dict w1 →
    time_msec w2 = time_msec w ∧
    (_outstanding_requests_dict w2 = _outstanding_requests_dict w ∨
     ∃ saml2_auth reqid,
       parse_authn_request_response resp_bytes (_outstanding_requests_dict w)
         = inr saml2_auth ∧
       not_signed saml2_auth = false ∧
       in_response_to saml2_auth = Some reqid ∧
       _outstanding_requests_dict w2 = delete reqid (_outstanding_requests_dict w))).
  { intros saml2_auth w1 s0 w2 Hp Ht Hd.
    pose proof (popped_time _ _ _ _ _ Hp) as Ht1.
    pose proof Hp as (Hparse & Hsigned & _).
    apply popped_state in Hp as (Hd1 & _).
    split; [congruence |]. rewrite Hd, Hd1.
    destruct (in_response_to saml2_auth) as [reqid |] eqn:Hirt; [| by left].
    right. by exists saml2_auth, reqid. }
  inversion Hrun as
    [ e0 Hparse | a0 Hparse Hsigned
    | a0 w1 s0 e0 Hp | a0 w1 s0 u0 Hp | a0 w1 s0 u0 r0 Hi
    | a0 w1 s0 u0 e0 Hu | a0 w1 s0 u0 r0 Hu
    | a0 w1 s0 u0 e0 Hv | a0 w1 s0 u0 lp dn em acc e0 Hv
    | a0 w1 s0 u0 lp dn em acc r0 Hv ]; subst;
    try (split; [done | by left]);
    try destruct Hv as [Hu _]; try destruct Hu as [Hi _];
    try destruct Hi as [Hp _];
    by eapply Hpopped.
Qed.

(** *** Handling a response *)

(** How [handle_saml_response] ends, given how the resolution on the swept
    state ends. *)
Lemma handle_saml_response_unfold self request w resp_bytes relay_state :
  parse_string request "SAMLResponse" = inr resp_bytes →
  parse_string request "RelayState" = inr relay_state →
  handle self request w =
  match resolve self resp_bytes relay_state (expire_sessions self w).1 with
  | (w', inl e) => (w', inl e)
  | (w', inr (user_id, current_session)) =>
      (w', inr match current_session with
               | Some {| ui_auth_session_id := Some session_id |} =>
                   if truthy session_id
                   then complete_sso_ui_auth user_id session_id request
                   else complete_sso_login user_id request relay_state
               | _ => complete_sso_login user_id request relay_state
               end)
  end.
Proof.
  intros Hresp Hrelay. unfold handle_saml_response. run.
  rewrite Hresp, Hrelay. simpl.
  destruct (resolve self resp_bytes relay_state _)
    as [w' [e | [user_id [[t [session_id |]] |]]]]; try done.
  by destruct (truthy session_id).
Qed.

(** C5, as amended: when, after the expiry sweep, the mapping of the
    response to a user raises a 400 error (the assertion cannot be parsed,
    is not signed, or lacks a required attribute), that error leaves
    [handle_saml_response] and no binding has been written.  The table of
    pending sessions is not what it was before the handling began: the sweep
    has run, and once the response was parsed and found signed the session
    it answers has been popped as well and stays consumed; this is the state
    in which a missing attribute is reported.  For an assertion that cannot
    be parsed or is not signed the table is the swept table. *)
Theorem client_error_state self request w w' resp_bytes relay_state
    (msg : string) :
  parse_string request "SAMLResponse" = inr resp_bytes →
  parse_string request "RelayState" = inr relay_state →
  resolve self resp_bytes relay_state (expire_sessions self w).1
    = (w', inl (SynapseError 400 msg)) →
  handle self request w = (w', inl (SynapseError 400 msg)) ∧
  user_external_ids w' = user_external_ids w ∧
  _outstanding_requests_dict w' =
  (let swept := _outstanding_requests_dict (expire_sessions self w).1 in
   match parse_authn_request_response resp_bytes swept with
   | inr saml2_auth =>
       if not_signed saml2_auth then swept
       else match in_response_to saml2_auth with
            | Some reqid => delete reqid swept
            | None => swept
            end
   | inl _ => swept
   end).
Proof.
  intros Hresp Hrelay Hres. split.
  - rewrite (handle_saml_response_unfold _ _ _ _ _ Hresp Hrelay).
    by rewrite Hres.
  - apply failed_resolution_state in Hres as [Hx Hd]. done.
Qed.

(** A response that the parser refuses is answered with a 400 error, in the
    swept state. *)
Lemma parser_rejection_is_400 self request w resp_bytes relay_state e :
  parse_string request "SAMLResponse" = inr resp_bytes →
  parse_string request "RelayState" = inr relay_state →
  parse_authn_request_response resp_bytes
    (_outstanding_requests_dict (expire_sessions self w).1) = inl e →
  handle self request w
  = ((expire_sessions self w).1,
     inl (SynapseError 400 ("Unable to parse SAML2 response: " +:+ e))).
Proof.
  intros Hresp Hrelay Hparse.
  rewrite (handle_saml_response_unfold _ _ _ _ _ Hresp Hrelay).
  unfold _map_saml_response_to_user. run. by rewrite Hparse.
Qed.

(** C6, as amended: when the [in_response_to] of a response matches no
    tracked session, the parser has accepted the response and the mapping
    yields a user, the handling does not fail: the session is taken as
    absent and the handling completes as a plain login of that user with
    the relay state. *)
Theorem untracked_response_completes_login self request w
    resp_bytes relay_state saml2_auth w' (user_id : string)
    (current_session : option Saml2SessionData) :
  parse_string request "SAMLResponse" = inr resp_bytes →
  parse_string request "RelayState" = inr relay_state →
  let swept := (expire_sessions self w).1 in
  parse_authn_request_response resp_bytes (_outstanding_requests_dict swept)
    = inr saml2_auth →
  (in_response_to saml2_auth ≫=
     fun reqid => _outstanding_requests_dict swept !! reqid) = None →
  resolve self resp_bytes relay_state swept
    = (w', inr (user_id, current_session)) →
  current_session = None ∧
  handle self request w
    = (w', inr (complete_sso_login user_id request relay_state)).
Proof.
  intros Hresp Hrelay swept Hparse Hnone Hres.
  assert (Hsess : current_session = None).
  { pose proof (run_of_resolve self resp_bytes relay_state swept) as Hrun.
    rewrite Hres in Hrun.
    inversion Hrun as
      [ | | | | a0 w1 s0 u0 r0 Hi
      | | a0 w1 s0 u0 r0 Hu
      | | | a0 w1 s0 u0 lp dn em acc r0 Hv Hloop Hreg ]; subst;
      try destruct Hv as [Hu _]; try destruct Hu as [Hi _];
      destruct Hi as [Hp _];
      pose proof Hp as (Hparse' & _);
      apply popped_state in Hp as (_ & -> & _);
      rewrite Hparse in Hparse'; injection Hparse' as <-; done. }
  split; [done |].
  rewrite (handle_saml_response_unfold _ _ _ _ _ Hresp Hrelay).
  fold swept. rewrite Hres, Hsess. done.
Qed.

(** *** Which completion is called *)

(** The completion a successful handling ends with, read off the session
    that the swept table holds for the response. *)
Lemma handle_completion self request w w' resp_bytes relay_state
    (completion : Completion Request) :
  parse_string request "SAMLResponse" = inr resp_bytes →
  parse_string request "RelayState" = inr relay_state →
  handle self request w = (w', inr completion) →
  ∃ saml2_auth user_id,
    parse_authn_request_response resp_bytes
      (_outstanding_requests_dict (expire_sessions self w).1) = inr saml2_auth ∧
    completion
    = match in_response_to saml2_auth ≫=
              fun reqid =>
                _outstanding_requests_dict (expire_sessions self w).1 !! reqid with
      | Some {| ui_auth_session_id := Some session_id |} =>
          if truthy session_id
          then complete_sso_ui_auth user_id session_id request
          else complete_sso_login user_id request relay_state
      | _ => complete_sso_login user_id request relay_state
      end.
Proof.
  intros Hresp Hrelay Hhandle.
  rewrite (handle_saml_response_unfold _ _ _ _ _ Hresp Hrelay) in Hhandle.
  destruct (resolve self resp_bytes relay_state _)
    as [w2 [e | [user_id current_session]]] eqn:Hres; [discriminate Hhandle |].
  injection Hhandle as <- <-.
  apply successful_resolution in Hres
    as (saml2_auth & u & Hparse & _ & -> & _).
  by exists saml2_auth, user_id.
Qed.

(** X17: a handling that succeeds ends in [complete_sso_ui_auth], with the
    session id stored at redirect time, exactly when the swept table holds
    under the response's [in_response_to] a session with a non-empty UI-auth
    session id; in every other case it ends in [complete_sso_login] with the
    relay state. *)
Theorem completion_follows_tracked_session self request w w'
    resp_bytes relay_state (completion : Completion Request) :
  parse_string request "SAMLResponse" = inr resp_bytes →
  parse_string request "RelayState" = inr relay_state →
  handle self request w = (w', inr completion) →
  ∃ saml2_auth user_id,
    parse_authn_request_response resp_bytes
      (_outstanding_requests_dict (expire_sessions self w).1) = inr saml2_auth ∧
    completion
    = match in_response_to saml2_auth ≫=
              fun reqid =>
                _outstanding_requests_dict (expire_sessions self w).1 !! reqid with
      | Some {| ui_auth_session_id := Some session_id |} =>
          if truthy session_id
          then complete_sso_ui_auth user_id session_id request
          else complete_sso_login user_id request relay_state
      | _ => complete_sso_login user_id request relay_state
      end.
Proof.
  intros Hresp Hrelay Hhandle.
  rewrite (handle_saml_response_unfold _ _ _ _ _ Hresp Hrelay) in Hhandle.
  destruct (resolve self resp_bytes relay_state _)
    as [w2 [e | [user_id current_session]]] eqn:Hres; [discriminate Hhandle |].
  injection Hhandle as <- <-.
  apply successful_resolution in Hres
    as (saml2_auth & u & Hparse & _ & Hsession & _).
  exists saml2_auth, user_id. split; [exact Hparse |]. by rewrite Hsession.
Qed.

(** X18: a response that answers a session older than the session lifetime
    cannot resume it: the sweep removes the session first, and a handling
    that succeeds ends in [complete_sso_login], whatever UI-auth session the
    expired entry carried. *)
Theorem expired_session_is_not_resumed self request w w'
    resp_bytes relay_state saml2_auth (reqid : string) (data : Saml2SessionData)
    (completion : Completion Request) :
  parse_string request "SAMLResponse" = inr resp_bytes →
  parse_string request "RelayState" = inr relay_state →
  _outstanding_requests_dict w !! reqid = Some data →
  creation_time data < time_msec w - _saml2_session_lifetime self →
  parse_authn_request_response resp_bytes
    (_outstanding_requests_dict (expire_sessions self w).1) = inr saml2_auth →
  in_response_to saml2_auth = Some reqid →
  handle self request w = (w', inr completion) →
  ∃ user_id, completion = complete_sso_login user_id request relay_state.
Proof.
  intros Hresp Hrelay Hdata Hold Hparse Hirt Hhandle.
  destruct (handle_completion _ _ _ _ _ _ _ Hresp Hrelay Hhandle)
    as (saml2_auth' & user_id & Hparse' & ->).
  rewrite Hparse in Hparse'. injection Hparse' as <-.
  exists user_id. rewrite Hirt. unfold mbind, option_bind. cbv beta iota.
  rewrite lookup_expire_sessions, Hdata. by rewrite decide_True.
Qed.

(** X20: a replayed response cannot resume a UI-auth session.  After a
    handling that succeeded for some user, handling the same request again
    at the same clock reading, the parser reading the response as before,
    succeeds for the same user and ends in [complete_sso_login]: the session
    was consumed the first time. *)
Theorem replayed_response_completes_plain_login self request w w'
    resp_bytes relay_state saml2_auth (completion : Completion Request) :
  parse_string request "SAMLResponse" = inr resp_bytes →
  parse_string request "RelayState" = inr relay_state →
  handle self request w = (w', inr completion) →
  parse_authn_request_response resp_bytes
    (_outstanding_requests_dict (expire_sessions self w).1) = inr saml2_auth →
  parse_authn_request_response resp_bytes
    (_outstanding_requests_dict (expire_sessions self w').1) = inr saml2_auth →
  ∃ user_id,
    ((∃ session_id, completion = complete_sso_ui_auth user_id session_id request) ∨
     completion = complete_sso_login user_id request relay_state) ∧
    handle self request w'
    = ((expire_sessions self w').1,
       inr (complete_sso_login user_id request relay_state)).
Proof.
  intros Hresp Hrelay Hhandle Hparse Hparse'.
  rewrite (handle_saml_response_unfold _ _ _ _ _ Hresp Hrelay) in Hhandle.
  destruct (resolve self resp_bytes relay_state (expire_sessions self w).1)
    as [w2 [e | [user_id current_session]]] eqn:Hres; [discriminate Hhandle |].
  injection Hhandle as <- <-.
  exists user_id. split.
  { destruct current_session as [[t [session_id |]] |]; [| by right..].
    destruct (truthy session_id); [left; by exists session_id | by right]. }
  apply successful_resolution in Hres
    as (saml2_auth' & u & Hparse2 & Hsigned & _ & Hd & Hid & Ht & Hbound).
  rewrite Hparse in Hparse2. injection Hparse2 as <-.
  rewrite (handle_saml_response_unfold _ _ _ _ _ Hresp Hrelay).
  assert (Hpop :
    pop_outstanding (in_response_to saml2_auth) (expire_sessions self w2).1
    = ((expire_sessions self w2).1, inr None)).
  { unfold pop_outstanding.
    destruct (in_response_to saml2_auth) as [reqid |]; [| done].
    by rewrite lookup_expire_sessions, Hd, lookup_delete_eq. }
  assert (Hres' :
    resolve self resp_bytes relay_state (expire_sessions self w2).1
    = ((expire_sessions self w2).1, inr (user_id, None))).
  { unfold _map_saml_response_to_user. run.
    rewrite Hparse', Hsigned, Hpop, Hid, Ht.
    change (user_external_ids (expire_sessions self w2).1)
      with (user_external_ids w2).
    by rewrite Hbound. }
  by rewrite Hres'.
Qed.

(** pysaml2's [prepare_for_authenticate], as in [handle_redirect_request]. *)
Variable prepare_for_authenticate :
  @World Accounts -> string -> result (string * list (string * string)).

(** X19: a redirect followed by its response.  If the response answers the
    request made by [handle_redirect_request] and arrives while the clock
    reads at most the creation time plus the session lifetime, a handling
    that succeeds ends in [complete_sso_ui_auth] with the UI-auth session id
    given at the redirect when that id is non-empty, and in
    [complete_sso_login] when none or an empty one was given. *)
Theorem redirect_then_response self request w0 w w'
    (url : string) (ui : option string) (reqid : string)
    (headers : list (string * string))
    resp_bytes relay_state saml2_auth (completion : Completion Request) :
  prepare_for_authenticate w0 url = inr (reqid, headers) →
  _outstanding_requests_dict w
  = _outstanding_requests_dict
      (handle_redirect_request prepare_for_authenticate url ui w0).1 →
  time_msec w <= time_msec w0 + _saml2_session_lifetime self →
  parse_string request "SAMLResponse" = inr resp_bytes →
  parse_string request "RelayState" = inr relay_state →
  parse_authn_request_response resp_bytes
    (_outstanding_requests_dict (expire_sessions self w).1) = inr saml2_auth →
  in_response_to saml2_auth = Some reqid →
  handle self request w = (w', inr completion) →
  ∃ user_id,
    completion
    = match ui with
      | Some session_id =>
          if truthy session_id
          then complete_sso_ui_auth user_id session_id request
          else complete_sso_login user_id request relay_state
      | None => complete_sso_login user_id request relay_state
      end.
Proof.
  intros Hprep Htable Htime Hresp Hrelay Hparse Hirt Hhandle.
  destruct (handle_completion _ _ _ _ _ _ _ Hresp Hrelay Hhandle)
    as (saml2_auth' & user_id & Hparse' & ->).
  rewrite Hparse in Hparse'. injection Hparse' as <-.
  exists user_id. rewrite Hirt. unfold mbind, option_bind. cbv beta iota.
  assert (Hstored :
    _outstanding_requests_dict w !! reqid
    = Some {| creation_time := time_msec w0; ui_auth_session_id := ui |}).
  { rewrite Htable. unfold handle_redirect_request. rewrite Hprep.
    destruct (find_location headers); simpl; apply lookup_insert_eq. }
  rewrite lookup_expire_sessions, Hstored. simpl.
  rewrite decide_False by lia. done.
Qed.

End ResolverFacts.

(** ** The properties on the small deployment *)

Import Scenario.

(** With the candidates of attempts 0 to 5 taken, the loop leaves with
    the candidate of attempt 6. *)
Lemma mapping_loop_selects_first_free_witness :
  mapping_loop get_users_by_id_case_insensitive UserID_to_string
    (handler None) alice_response url (seq 0 1000)
    (world 10 ∅ ∅ six_accounts)
  = (world 10 ∅ ∅ six_accounts, inr ("alice6", None, [])).
Proof.
  apply (mapping_loop_selects_first_free
           get_users_by_id_case_insensitive UserID_to_string
           (handler None) alice_response url (world 10 ∅ ∅ six_accounts)
           (fun j =>
              {| mxid_localpart :=
                   Some ("alice" +:+ match j with O => "" | S _ => str j end);
                 displayname := None;
                 emails := Some [] |})
           (fun j => "alice" +:+ match j with O => "" | S _ => str j end)
           6%nat).
  - lia.
  - intros j _ _. repeat split.
  - intros j Hj.
    do 6 (destruct j as [| j]; [vm_compute; discriminate |]). lia.
  - intros _. vm_compute. reflexivity.
Defined.

(** The first login of [alice] when [@alice:hs] and [@alice1:hs] to
    [@alice5:hs] exist: attempt 6 is the one registered and bound. *)
Lemma resolver_selects_first_free_witness :
  map_response None "alice" url (world 10 pending ∅ six_accounts)
  = (set_user_external_ids (<[("saml", "alice") := "@alice6:hs"]> ∅)
       (set_registration (six_accounts ++ ["@alice6:hs"])%list
          {| call_localpart := "alice6"; call_default_display_name := None;
             call_bind_emails := [] |}
          (world 10 ∅ ∅ six_accounts)),
     inr ("@alice6:hs", Some (session 7))).
Proof.
  apply (resolver_selects_first_free
           (parse_authn_request_response known_responses)
           get_users_by_id_case_insensitive register_user lower UserID_to_string
           (handler None) "alice" url (world 10 pending ∅ six_accounts)
           alice_response (world 10 ∅ ∅ six_accounts) (Some (session 7)) "alice"
           (fun j =>
              {| mxid_localpart :=
                   Some ("alice" +:+ match j with O => "" | S _ => str j end);
                 displayname := None;
                 emails := Some [] |})
           (fun j => "alice" +:+ match j with O => "" | S _ => str j end)
           6%nat); try reflexivity.
  - lia.
  - intros j _ _. repeat split.
  - intros j Hj.
    do 6 (destruct j as [| j]; [vm_compute; discriminate |]). lia.
Defined.

(** A provider that proposes the same candidate at every attempt: with that
    candidate taken, the function gives up after 1000 attempts with the 500
    error, and nobody is registered or bound. *)
Example resolver_exhausts_attempts :
  _map_saml_response_to_user
    (parse_authn_request_response known_responses)
    get_users_by_id_case_insensitive register_user lower UserID_to_string
    {| _hostname := hostname; _saml2_session_lifetime := 300000;
       _grandfathered_mxid_source_attribute := None;
       _user_mapping_provider :=
         {| get_remote_user_id := fun _ _ => inr "alice";
            saml_response_to_user_attributes := fun _ _ _ =>
              inr {| mxid_localpart := Some "alice"; displayname := None;
                     emails := None |} |} |}
    "alice" url (world 10 pending ∅ ["@Alice:hs"])
  = (world 10 ∅ ∅ ["@Alice:hs"],
     inl (SynapseError 500
            "Unable to generate a Matrix ID from the SAML response")).
Proof. vm_compute. reflexivity. Qed.

(** A provider that proposes the same candidate at every attempt exhausts
    the 1000 attempts when that candidate is taken. *)
Example mapping_loop_exhausted :
  let static :=
    {| get_remote_user_id := fun _ _ => inr "alice";
       saml_response_to_user_attributes := fun _ _ _ =>
         inr {| mxid_localpart := Some "alice"; displayname := None;
                emails := None |} |} in
  let self :=
    {| _hostname := hostname; _saml2_session_lifetime := 300000;
       _grandfathered_mxid_source_attribute := None;
       _user_mapping_provider := static |} in
  mapping_loop get_users_by_id_case_insensitive UserID_to_string
    self alice_response url (seq 0 1000) (world 10 ∅ ∅ ["@Alice:hs"])
  = (world 10 ∅ ∅ ["@Alice:hs"],
     inl (SynapseError 500
            "Unable to generate a Matrix ID from the SAML response")).
Proof.
  intros static self.
  apply (mapping_loop_seq get_users_by_id_case_insensitive UserID_to_string
           self alice_response url (world 10 ∅ ∅ ["@Alice:hs"])
           (fun _ => {| mxid_localpart := Some "alice"; displayname := None;
                        emails := None |})
           (fun _ => "alice") 1000 0 1000).
  - lia.
  - intros j _ _ _. repeat split.
  - intros j _ _. vm_compute. discriminate.
  - lia.
Qed.

(** A repeat login of [alice]: the bound user is returned, the session is
    popped, and nobody is registered. *)
Lemma existing_mapping_returned_witness :
  ∃ w1 current_session,
    pop_outstanding (in_response_to alice_response)
      (world 10 pending alice_bound ["@alice:hs"]) = (w1, inr current_session) ∧
    map_response None "alice" url (world 10 pending alice_bound ["@alice:hs"])
      = (w1, inr ("@alice:hs", current_session)) ∧
    register_user_calls w1 = [] ∧
    accounts w1 = ["@alice:hs"] ∧
    user_external_ids w1 = alice_bound.
Proof.
  apply (existing_mapping_returned
           (parse_authn_request_response known_responses)
           get_users_by_id_case_insensitive register_user lower UserID_to_string
           (handler None) "alice" url
           (world 10 pending alice_bound ["@alice:hs"])
           alice_response "alice" "@alice:hs");
    vm_compute; reflexivity.
Defined.

Example repeat_login :
  map_response None "alice" url (world 10 pending alice_bound ["@alice:hs"])
  = (world 10 ∅ alice_bound ["@alice:hs"], inr ("@alice:hs", Some (session 7))).
Proof. vm_compute. reflexivity. Qed.

(** C3, as stated, fails: with two accounts matching the grandfathered user
    id case-insensitively, the binding is still recorded, to the first of
    them, and that account is returned. *)
Lemma grandfathered_binds_with_two_matches :
  length (get_users_by_id_case_insensitive ["@Bob:hs"; "@bob:hs"] "@bob:hs") = 2%nat ∧
  (map_response (Some "legacy_uid") "bob" url
     (world 10 pending ∅ ["@Bob:hs"; "@bob:hs"])).2
  = inr ("@Bob:hs", Some (session 7)) ∧
  user_external_ids
    (map_response (Some "legacy_uid") "bob" url
       (world 10 pending ∅ ["@Bob:hs"; "@bob:hs"])).1 !! ("saml", "bob")
  = Some "@Bob:hs" ∧
  register_user_calls
    (map_response (Some "legacy_uid") "bob" url
       (world 10 pending ∅ ["@Bob:hs"; "@bob:hs"])).1 = [].
Proof. vm_compute. done. Qed.

(** With the two accounts [@Bob:hs] and [@bob:hs] the first is adopted for
    the remote user [bob]; with no account, [bob] is registered and bound. *)
Lemma grandfathered_binds_first_match_witness :
  map_response (Some "legacy_uid") "bob" url
    (world 10 pending ∅ ["@Bob:hs"; "@bob:hs"])
  = (set_user_external_ids (<[("saml", "bob") := "@Bob:hs"]> ∅)
       (world 10 ∅ ∅ ["@Bob:hs"; "@bob:hs"]),
     inr ("@Bob:hs", Some (session 7))) ∧
  map_response (Some "legacy_uid") "bob" url (world 10 pending ∅ [])
  = (set_user_external_ids (<[("saml", "bob") := "@bob:hs"]> ∅)
       (set_registration ["@bob:hs"] bob_call (world 10 ∅ ∅ [])),
     inr ("@bob:hs", Some (session 7))).
Proof.
  split.
  - exact (proj2 (proj2 (proj2
             (grandfathered_binds_first_match
                (parse_authn_request_response known_responses)
                get_users_by_id_case_insensitive register_user lower
                UserID_to_string
                (handler (Some "legacy_uid")) "bob" url
                (world 10 pending ∅ ["@Bob:hs"; "@bob:hs"])
                bob_response (world 10 ∅ ∅ ["@Bob:hs"; "@bob:hs"])
                (Some (session 7)) "bob" "legacy_uid" "bob" []
                eq_refl eq_refl eq_refl eq_refl eq_refl eq_refl eq_refl
                eq_refl eq_refl)))).
  - exact (proj2 (proj2 (proj2
             (grandfathered_binds_first_match
                (parse_authn_request_response known_responses)
                get_users_by_id_case_insensitive register_user lower
                UserID_to_string
                (handler (Some "legacy_uid")) "bob" url
                (world 10 pending ∅ [])
                bob_response (world 10 ∅ ∅ [])
                (Some (session 7)) "bob" "legacy_uid" "bob" []
                eq_refl eq_refl eq_refl eq_refl eq_refl eq_refl eq_refl
                eq_refl eq_refl)))).
Defined.

(** C5, as stated, fails: a signed response without [uid] is rejected with
    a 400 error, and the pending session it answers, which was tracked and
    not expired, is gone from the table afterwards. *)
Lemma missing_uid_pops_session :
  (handle None (request "no-uid") (world 10 pending ∅ [])).2
  = inl (SynapseError 400 "'uid' not in SAML2 response") ∧
  _outstanding_requests_dict (world 10 pending ∅ []) !! "id-1"
  = Some (session 7) ∧
  _outstanding_requests_dict
    (handle None (request "no-uid") (world 10 pending ∅ [])).1 !! "id-1"
  = None.
Proof. vm_compute. done. Qed.

Lemma client_error_state_witness :
  handle None (request "no-uid") (world 10 pending ∅ [])
  = (world 10 ∅ ∅ [], inl (SynapseError 400 "'uid' not in SAML2 response")) ∧
  user_external_ids (world 10 ∅ ∅ []) = user_external_ids (world 10 pending ∅ []) ∧
  _outstanding_requests_dict (world 10 ∅ ∅ []) = delete "id-1" pending.
Proof.
  exact (client_error_state
           parse_string (parse_authn_request_response known_responses)
           get_users_by_id_case_insensitive register_user lower UserID_to_string
           (handler None) (request "no-uid") (world 10 pending ∅ [])
           (world 10 ∅ ∅ []) "no-uid" url "'uid' not in SAML2 response"
           eq_refl eq_refl eq_refl).
Defined.

(** An unsigned or unparseable response leaves the session in place. *)
Example unparseable_keeps_session :
  handle None (request "garbage") (world 10 pending ∅ [])
  = (world 10 pending ∅ [],
     inl (SynapseError 400 "Unable to parse SAML2 response: not well-formed")).
Proof. vm_compute. reflexivity. Qed.

(** C6, as stated, fails: the response answers request [id-1], no session is
    tracked under that id, and the handling completes the login of the bound
    user. *)
Lemma untracked_response_logs_in :
  in_response_to alice_response = Some "id-1" ∧
  _outstanding_requests_dict (world 10 ∅ alice_bound ["@alice:hs"]) !! "id-1" = None ∧
  handle None (request "alice") (world 10 ∅ alice_bound ["@alice:hs"])
  = (world 10 ∅ alice_bound ["@alice:hs"],
     inr (complete_sso_login "@alice:hs" (request "alice") url)).
Proof. vm_compute. done. Qed.

(** An untracked response for a user who is not bound yet registers the
    user and completes the login. *)
Lemma untracked_response_completes_login_witness :
  @None Saml2SessionData = None ∧
  handle None (request "alice") (world 10 ∅ ∅ [])
  = ((map_response None "alice" url (world 10 ∅ ∅ [])).1,
     inr (complete_sso_login "@alice:hs" (request "alice") url)).
Proof.
  exact (untracked_response_completes_login
           parse_string (parse_authn_request_response known_responses)
           get_users_by_id_case_insensitive register_user lower UserID_to_string
           (handler None) (request "alice") (world 10 ∅ ∅ [])
           "alice" url alice_response
           (map_response None "alice" url (world 10 ∅ ∅ [])).1
           "@alice:hs" None
           eq_refl eq_refl eq_refl eq_refl eq_refl).
Defined.

(** With the registration handler out of order, its exception leaves the
    function and no binding is written. *)
Lemma binding_recorded_after_registration_witness :
  (map_response_unregistered "alice" url (world 10 pending ∅ [])).2
  = inl (Raised "RegistrationError") ∧
  user_external_ids
    (map_response_unregistered "alice" url (world 10 pending ∅ [])).1
  = user_external_ids (world 10 pending ∅ []) ∧
  accounts (map_response_unregistered "alice" url (world 10 pending ∅ [])).1 = [].
Proof.
  exact (binding_recorded_after_registration
           (parse_authn_request_response known_responses)
           get_users_by_id_case_insensitive register_user_failing
           lower UserID_to_string
           (handler None) "alice" url (world 10 pending ∅ [])
           (map_response_unregistered "alice" url (world 10 pending ∅ [])).1
           (map_response_unregistered "alice" url (world 10 pending ∅ [])).2
           alice_call eq_refl eq_refl).
Defined.

Example registration_failure_leaves_no_binding :
  map_response_unregistered "alice" url (world 10 pending ∅ [])
  = (set_registration [] alice_call (world 10 ∅ ∅ []),
     inl (Raised "RegistrationError")).
Proof. vm_compute. reflexivity. Qed.

(** A first login of [alice]: one call of [register_user] for the localpart
    [alice], then the binding of the remote user to the new account. *)
Example first_login :
  handle None (request "alice") (world 10 pending ∅ [])
  = ({| time_msec := 10;
        _outstanding_requests_dict := ∅;
        user_external_ids := {[ ("saml", "alice") := "@alice:hs" ]};
        accounts := ["@alice:hs"];
        register_user_calls := [alice_call] |},
     inr (complete_sso_login "@alice:hs" (request "alice") url)).
Proof. vm_compute. reflexivity. Qed.

(** A first login of [alice] when [@alice:hs] and [@alice1:hs] to
    [@alice5:hs] exist: the account registered and bound is [alice6]. *)
Example first_login_after_collisions :
  handle None (request "alice") (world 10 pending ∅ six_accounts)
  = ({| time_msec := 10;
        _outstanding_requests_dict := ∅;
        user_external_ids := {[ ("saml", "alice") := "@alice6:hs" ]};
        accounts := (six_accounts ++ ["@alice6:hs"])%list;
        register_user_calls :=
          [{| call_localpart := "alice6"; call_default_display_name := None;
              call_bind_emails := [] |}] |},
     inr (complete_sso_login "@alice6:hs" (request "alice") url)).
Proof. vm_compute. reflexivity. Qed.

(** The legacy fallback of the specification's example: the attribute
    [legacy_uid] of [bob] finds the account [@Bob:hs], which is bound
    without any registration. *)
Example legacy_fallback :
  handle (Some "legacy_uid") (request "bob") (world 10 pending ∅ ["@Bob:hs"])
  = ({| time_msec := 10;
        _outstanding_requests_dict := ∅;
        user_external_ids := {[ ("saml", "bob") := "@Bob:hs" ]};
        accounts := ["@Bob:hs"];
        register_user_calls := [] |},
     inr (complete_sso_login "@Bob:hs" (request "bob") url)).
Proof. vm_compute. reflexivity. Qed.

(** ** The table of pending sessions: creation, consumption, expiry *)

Section PendingSessions.

Context {Accounts : Type}.
Variable prepare_for_authenticate :
  @World Accounts -> string -> result (string * list (string * string)).

Implicit Types (w : @World Accounts) (self : SamlHandler).

Lemma find_location_first (pre post : list (string * string)) (value : string) :
  (∀ kv, kv ∈ pre → kv.1 ≠ "Location") →
  find_location (pre ++ ("Location", value) :: post) = Some value.
Proof.
  induction pre as [| [key v] pre IH]; intros Hpre; simpl; [done |].
  destruct (String.eqb_spec key "Location") as [-> | Hne].
  - exfalso. apply (Hpre ("Location", v)); [left | done].
  - apply IH. intros kv Hin. apply Hpre. by right.
Qed.

Lemma find_location_none (headers : list (string * string)) :
  (∀ kv, kv ∈ headers → kv.1 ≠ "Location") → find_location headers = None.
Proof.
  induction headers as [| [key v] headers IH]; intros Hall; simpl; [done |].
  destruct (String.eqb_spec key "Location") as [-> | Hne].
  - exfalso. apply (Hall ("Location", v)); [left | done].
  - apply IH. intros kv Hin. apply Hall. by right.
Qed.

(** X1: once pysaml2 has built the request [reqid], the session is stored
    under [reqid] with the clock reading and the UI-auth session id given,
    every other entry and the rest of the state being kept; this holds also
    when the call then fails.  The call returns the value of the first
    [Location] header, and raises when there is none. *)
Theorem redirect_records_session (url : string) (ui : option string) w
    (reqid : string) (headers : list (string * string)) :
  prepare_for_authenticate w url = inr (reqid, headers) →
  let session := {| creation_time := time_msec w; ui_auth_session_id := ui |} in
  let r := handle_redirect_request prepare_for_authenticate url ui w in
  _outstanding_requests_dict r.1 !! reqid = Some session ∧
  (∀ other, other ≠ reqid →
     _outstanding_requests_dict r.1 !! other = _outstanding_requests_dict w !! other) ∧
  (user_external_ids r.1 = user_external_ids w ∧ accounts r.1 = accounts w ∧
   register_user_calls r.1 = register_user_calls w ∧ time_msec r.1 = time_msec w) ∧
  (∀ pre value post,
     headers = (pre ++ ("Location", value) :: post)%list →
     (∀ kv, kv ∈ pre → kv.1 ≠ "Location") →
     r.2 = inr value) ∧
  ((∀ kv, kv ∈ headers → kv.1 ≠ "Location") →
   r.2 = inl (Exception
                "prepare_for_authenticate didn't return a Location header")).
Proof.
  intros Hprep session r. subst r. unfold handle_redirect_request.
  rewrite Hprep. fold session.
  assert (Hstate :
    ∀ res : result string,
      (let w' :=
         set_outstanding (<[reqid := session]> (_outstanding_requests_dict w)) w in
       _outstanding_requests_dict (w', res).1 !! reqid = Some session ∧
       (∀ other, other ≠ reqid →
          _outstanding_requests_dict (w', res).1 !! other
          = _outstanding_requests_dict w !! other))).
  { intros res. simpl. split; [apply lookup_insert_eq |].
    intros other Hne. by apply lookup_insert_ne. }
  destruct (find_location headers) as [value |] eqn:Hloc; simpl.
  - destruct (Hstate (inr value)) as [H1 H2]. repeat split; try done.
    + intros pre value' post -> Hpre.
      rewrite (find_location_first pre post value' Hpre) in Hloc. congruence.
    + intros Hall. rewrite (find_location_none headers Hall) in Hloc. done.
  - destruct (Hstate (inl IndexError)) as [H1 H2]. repeat split; try done.
    intros pre value' post -> Hpre.
    rewrite (find_location_first pre post value' Hpre) in Hloc. done.
Qed.

(** X2: the session stored by [handle_redirect_request] is what the first
    [pop] of its request id returns; that [pop] leaves the table without the
    id, and a second [pop] of the same id finds nothing. *)
Theorem redirect_then_pop (url : string) (ui : option string) w
    (reqid : string) (headers : list (string * string)) :
  prepare_for_authenticate w url = inr (reqid, headers) →
  let w1 := (handle_redirect_request prepare_for_authenticate url ui w).1 in
  ∃ w2,
    pop_outstanding (Some reqid) w1
    = (w2, inr (Some {| creation_time := time_msec w;
                        ui_auth_session_id := ui |})) ∧
    _outstanding_requests_dict w2 = delete reqid (_outstanding_requests_dict w) ∧
    pop_outstanding (Some reqid) w2 = (w2, inr None).
Proof.
  intros Hprep w1. subst w1. unfold handle_redirect_request. rewrite Hprep.
  set (session := {| creation_time := time_msec w; ui_auth_session_id := ui |}).
  assert (Hpop : ∀ res : result string,
    ∃ w2,
      pop_outstanding (Some reqid)
        (set_outstanding (<[reqid := session]> (_outstanding_requests_dict w)) w,
         res).1 = (w2, inr (Some session)) ∧
      _outstanding_requests_dict w2 = delete reqid (_outstanding_requests_dict w) ∧
      pop_outstanding (Some reqid) w2 = (w2, inr None)).
  { intros res. eexists. split; [| split].
    - unfold pop_outstanding. simpl. rewrite lookup_insert_eq. reflexivity.
    - simpl. apply delete_insert_eq.
    - unfold pop_outstanding. simpl.
      by rewrite delete_insert_eq, lookup_delete_eq. }
  destruct (find_location headers); apply Hpop.
Qed.

(** X3: sweeping twice at the same clock reading is the same as sweeping
    once. *)
Theorem expire_sessions_idempotent self w :
  (expire_sessions self (expire_sessions self w).1).1 = (expire_sessions self w).1.
Proof.
  assert (Hd :
    _outstanding_requests_dict (expire_sessions self (expire_sessions self w).1).1
    = _outstanding_requests_dict (expire_sessions self w).1).
  { apply map_eq. intros reqid.
    rewrite (lookup_expire_sessions self (expire_sessions self w).1 reqid).
    rewrite (lookup_expire_sessions self w reqid).
    destruct (_outstanding_requests_dict w !! reqid) as [data |]; [| done].
    change (time_msec (expire_sessions self w).1) with (time_msec w).
    case_decide as Hold; [done |]. by rewrite decide_False. }
  unfold expire_sessions in *. simpl in *. unfold set_outstanding. simpl.
  by rewrite Hd.
Qed.

(** X4: a session created by [handle_redirect_request] at time [t] is kept
    by every sweep whose clock reads at most [t + lifetime], and removed by
    every later one. *)
Theorem redirected_session_lifetime (url : string) (ui : option string) self w w'
    (reqid : string) (headers : list (string * string)) :
  prepare_for_authenticate w url = inr (reqid, headers) →
  _outstanding_requests_dict w'
  = _outstanding_requests_dict
      (handle_redirect_request prepare_for_authenticate url ui w).1 →
  _outstanding_requests_dict (expire_sessions self w').1 !! reqid
  = if decide (time_msec w' <= time_msec w + _saml2_session_lifetime self)
    then Some {| creation_time := time_msec w; ui_auth_session_id := ui |}
    else None.
Proof.
  intros Hprep Htable.
  rewrite (lookup_expire_sessions self w' reqid), Htable.
  unfold handle_redirect_request. rewrite Hprep.
  assert (Hl : ∀ res : result string,
    _outstanding_requests_dict
      (set_outstanding
         (<[reqid := {| creation_time := time_msec w; ui_auth_session_id := ui |}]>
            (_outstanding_requests_dict w)) w, res).1 !! reqid
    = Some {| creation_time := time_msec w; ui_auth_session_id := ui |}).
  { intros res. simpl. apply lookup_insert_eq. }
  destruct (find_location headers); rewrite Hl; simpl;
    repeat case_decide; done || lia.
Qed.

End PendingSessions.

(** ** More on the dot-replace normaliser *)

(** The strings made of ASCII characters only (code points below 128).  On
    these a character of the Rocq string is a character of the Python
    string, and [lower] and the character-wise substitution are those of
    [str.lower()] and of the regular expression; the results below are
    stated for such inputs. *)
Definition is_ascii (c : ascii) : bool := (nat_of_ascii c <? 128)%nat.

Fixpoint ascii_only (s : string) : bool :=
  match s with
  | EmptyString => true
  | String c s' => is_ascii c && ascii_only s'
  end.

Section NormaliserResults.

Variable chars : list ascii.

Lemma allowed_In (c : ascii) : allowed chars c = true → In c chars.
Proof.
  unfold allowed. rewrite existsb_exists. intros (c' & Hin & Heq).
  apply Ascii.eqb_eq in Heq. by subst.
Qed.

Lemma all_allowed_In (s : string) (c : ascii) :
  all_allowed chars s → In c (list_ascii_of_string s) → In c chars.
Proof.
  induction s as [| c' s IH]; simpl; [done |].
  intros [Hc Hs] [<- | Hin]; [by apply allowed_In | by apply IH].
Qed.

Lemma lower_ascii_underscore (c : ascii) : lower_ascii c = "_"%char → c = "_"%char.
Proof. destruct c as [[] [] [] [] [] [] [] []]; vm_compute; congruence. Qed.

(** X5: for every ASCII input, the normalised name consists of allowed
    localpart characters only, provided the dot is one of them. *)
Theorem dot_replace_for_mxid_localpart_characters (x : string) (c : ascii) :
  ascii_only x = true →
  In "."%char chars →
  In c (list_ascii_of_string (dot_replace_for_mxid chars x)) →
  In c chars.
Proof.
  intros _ Hdot. apply all_allowed_In, dot_replace_for_mxid_all_allowed.
  unfold allowed. apply existsb_exists. exists "."%char. split; [done |].
  apply Ascii.eqb_refl.
Qed.

(** X6: with the dot allowed and no upper-case letter allowed, normalising
    an ASCII input a second time changes nothing exactly when the first
    result does not begin with an underscore. *)
Theorem dot_replace_for_mxid_idempotent_iff (x : string) :
  ascii_only x = true →
  allowed chars "."%char = true →
  (∀ c, allowed chars c = true → is_upper c = false) →
  dot_replace_for_mxid chars (dot_replace_for_mxid chars x)
    = dot_replace_for_mxid chars x
  ↔ ∀ s, dot_replace_for_mxid chars x ≠ String "_" s.
Proof.
  intros _ Hdot Hupper. split.
  - intros Hidem s Hstart.
    pose proof (dot_replace_for_mxid_all_allowed chars Hdot x) as Hall.
    rewrite Hstart in Hidem, Hall.
    unfold dot_replace_for_mxid in Hidem.
    rewrite (lower_all_allowed chars Hupper _ Hall) in Hidem.
    rewrite (sub_all_allowed chars _ Hall) in Hidem.
    simpl in Hidem. apply (f_equal String.length) in Hidem. simpl in Hidem. lia.
  - apply dot_replace_for_mxid_twice; done.
Qed.

(** X7: when the underscore is an allowed character, the normalised name is
    empty for exactly two ASCII inputs, the empty string and the single
    underscore. *)
Theorem dot_replace_for_mxid_empty_iff (x : string) :
  ascii_only x = true →
  allowed chars "_"%char = true →
  dot_replace_for_mxid chars x = "" ↔ x = "" ∨ x = "_".
Proof.
  intros _ Hu. split.
  - destruct x as [| c x']; [by left |]. intros Hempty. right.
    unfold dot_replace_for_mxid in Hempty. simpl in Hempty.
    destruct (allowed chars (lower_ascii c)) eqn:Hc.
    + destruct (lower_ascii c) as [[] [] [] [] [] [] [] []] eqn:Hlc;
        simpl in Hempty; try discriminate Hempty.
      apply lower_ascii_underscore in Hlc as ->.
      destruct x' as [| c' x'']; [done | discriminate Hempty].
    + simpl in Hempty. discriminate Hempty.
  - intros [-> | ->]; [done |].
    unfold dot_replace_for_mxid. simpl.
    change (lower_ascii "_") with "_"%char. by rewrite Hu.
Qed.

End NormaliserResults.

(** ** More on the default mapping provider *)

Lemma str_inj (n m : nat) : str n = str m → n = m.
Proof.
  unfold str. intros Heq. apply Unsigned.to_uint_inj.
  apply (f_equal NilEmpty.uint_of_string) in Heq.
  rewrite !NilEmpty.usu in Heq. congruence.
Qed.

Lemma str_nonempty (n : nat) : str n ≠ "".
Proof.
  unfold str. intros Heq.
  assert (Hnil : Nat.to_uint n = Decimal.Nil).
  { destruct (Nat.to_uint n); simpl in Heq; done. }
  apply (unorm_nonnil (Nat.to_uint n)).
  rewrite <- Unsigned.to_of, Unsigned.of_to. exact Hnil.
Qed.

(** X8: for one response, two different attempt numbers never give the
    same candidate localpart. *)
Theorem default_provider_candidates_distinct
    (self : DefaultSamlMappingProvider.t) (saml_response : AuthnResponse)
    (url : string) (i j : nat) (d d' : UserAttributes) :
  i ≠ j →
  DefaultSamlMappingProvider.saml_response_to_user_attributes
    self saml_response i url = inr d →
  DefaultSamlMappingProvider.saml_response_to_user_attributes
    self saml_response j url = inr d' →
  mxid_localpart d ≠ mxid_localpart d'.
Proof.
  intros Hne Hi Hj.
  unfold DefaultSamlMappingProvider.saml_response_to_user_attributes in Hi, Hj.
  destruct (ava saml_response !! DefaultSamlMappingProvider._mxid_source_attribute self)
    as [[| v vs] |]; try discriminate Hi.
  set (base := DefaultSamlMappingProvider._mxid_mapper self v) in *.
  assert (Hi' : mxid_localpart d
                = Some (base +:+ match i with O => "" | S _ => str i end)).
  { destruct (ava saml_response !! "displayName") as [[| x xs] |];
      by (discriminate Hi || injection Hi as <-). }
  assert (Hj' : mxid_localpart d'
                = Some (base +:+ match j with O => "" | S _ => str j end)).
  { destruct (ava saml_response !! "displayName") as [[| x xs] |];
      by (discriminate Hj || injection Hj as <-). }
  rewrite Hi', Hj'. intros [= Heq]. apply (inj (String.app base)) in Heq.
  destruct i as [| i], j as [| j]; try done.
  - by apply (str_nonempty (S j)).
  - by apply (str_nonempty (S i)).
  - by apply Hne, str_inj.
Qed.

(** X9: the attributes [get_saml_attributes] declares as required are the
    ones the provider cannot do without.  If each of them is present with a
    value (and [displayName], if present, has one), both calls of the
    provider return; if one of them is absent, one of the two calls raises a
    400 error. *)
Theorem required_attributes_are_needed
    (config : SamlConfig) (grandfathered : option string)
    (saml_response : AuthnResponse) (failures : nat) (url : string) :
  let self := DefaultSamlMappingProvider.__init__ config grandfathered in
  let required := (DefaultSamlMappingProvider.get_saml_attributes config).1 in
  ((∀ a, a ∈ required → ∃ v vs, ava saml_response !! a = Some (v :: vs)) →
   ava saml_response !! "displayName" ≠ Some [] →
   ∃ remote_user_id attribute_dict localpart,
     DefaultSamlMappingProvider.get_remote_user_id self saml_response url
       = inr remote_user_id ∧
     DefaultSamlMappingProvider.saml_response_to_user_attributes
       self saml_response failures url = inr attribute_dict ∧
     mxid_localpart attribute_dict = Some localpart) ∧
  (∀ a, a ∈ required → ava saml_response !! a = None →
   (∃ msg, DefaultSamlMappingProvider.get_remote_user_id self saml_response url
           = inl (SynapseError 400 msg)) ∨
   (∃ msg, DefaultSamlMappingProvider.saml_response_to_user_attributes
             self saml_response failures url = inl (SynapseError 400 msg))).
Proof.
  intros self required. subst self required. simpl. split.
  - intros Hreq Hdn.
    destruct (Hreq "uid") as (u & us & Huid); [set_solver |].
    destruct (Hreq (mxid_source_attribute config)) as (v & vs & Hsrc);
      [set_solver |].
    unfold DefaultSamlMappingProvider.get_remote_user_id,
      DefaultSamlMappingProvider.saml_response_to_user_attributes.
    simpl. rewrite Huid, Hsrc.
    destruct (ava saml_response !! "displayName") as [[| x xs] |];
      [done | |]; by eexists _, _, _.
  - intros a Ha Hnone.
    apply elem_of_union in Ha as [Ha | Ha]; apply elem_of_singleton in Ha; subst a.
    + left. unfold DefaultSamlMappingProvider.get_remote_user_id.
      rewrite Hnone. eauto.
    + right. unfold DefaultSamlMappingProvider.saml_response_to_user_attributes.
      simpl. rewrite Hnone. eauto.
Qed.

(** X10: [parse_config] accepts a configuration exactly when its
    [mxid_mapping], [hexencode] if absent, names one of the two mappers; the
    source attribute of the result is the configured one, [uid] if absent,
    and the mapper is the one named. *)
Theorem parse_config_accepts_known_mappings
    (map_username_to_mxid_localpart : string → string) (chars : list ascii)
    (config : gmap string string) :
  let mapping_type := default "hexencode" (config !! "mxid_mapping") in
  match DefaultSamlMappingProvider.parse_config
          (MXID_MAPPER_MAP map_username_to_mxid_localpart chars) config with
  | inr parsed =>
      mxid_source_attribute parsed
        = default "uid" (config !! "mxid_source_attribute") ∧
      ((mapping_type = "hexencode" ∧
        mxid_mapper parsed = map_username_to_mxid_localpart) ∨
       (mapping_type = "dotreplace" ∧
        mxid_mapper parsed = dot_replace_for_mxid chars))
  | inl e =>
      mapping_type ≠ "hexencode" ∧ mapping_type ≠ "dotreplace" ∧
      e = ConfigError
            ("saml2_config.user_mapping_provider.config: '" +:+ mapping_type
             +:+ "' is not a valid mxid_mapping value")
  end.
Proof.
  intros mapping_type. unfold DefaultSamlMappingProvider.parse_config.
  fold mapping_type. unfold MXID_MAPPER_MAP.
  destruct (decide (mapping_type = "hexencode")) as [-> | Hh].
  { rewrite lookup_insert_eq. simpl. auto. }
  rewrite lookup_insert_ne by done.
  destruct (decide (mapping_type = "dotreplace")) as [-> | Hd].
  { rewrite lookup_singleton_eq. simpl. auto. }
  rewrite lookup_singleton_ne by done. done.
Qed.

(** ** Further runs on the small deployment *)

Lemma redirect_records_session_witness :
  _outstanding_requests_dict (redirect (Some "ui-7")).1 !! "id-2"
  = Some (ui_session 10) ∧
  (redirect (Some "ui-7")).2
  = inr "https://idp.example.org/sso?RelayState=https://client/cb".
Proof.
  pose proof (redirect_records_session prepare_for_authenticate url
                (Some "ui-7") before_redirect "id-2"
                [("Cache-Control", "no-cache");
                 ("Location",
                  "https://idp.example.org/sso?RelayState=https://client/cb")]
                eq_refl) as (Hstored & _ & _ & Hfirst & _).
  split; [exact Hstored |].
  apply (Hfirst [("Cache-Control", "no-cache")] _ []); [reflexivity |].
  intros kv Hin. apply list_elem_of_singleton in Hin as ->. discriminate.
Defined.

Lemma redirect_then_pop_witness :
  ∃ w2,
    pop_outstanding (Some "id-2") (redirect (Some "ui-7")).1
    = (w2, inr (Some (ui_session 10))) ∧
    _outstanding_requests_dict w2 = delete "id-2" ∅ ∧
    pop_outstanding (Some "id-2") w2 = (w2, inr None).
Proof.
  exact (redirect_then_pop prepare_for_authenticate url (Some "ui-7")
           before_redirect "id-2"
           [("Cache-Control", "no-cache");
            ("Location",
             "https://idp.example.org/sso?RelayState=https://client/cb")]
           eq_refl).
Defined.

(** The session made at time 10 is still there when the clock reads
    300010. *)
Lemma redirected_session_lifetime_witness :
  _outstanding_requests_dict
    (expire_sessions (handler None)
       (world 300010 (_outstanding_requests_dict (redirect (Some "ui-7")).1)
          alice_bound ["@alice:hs"])).1 !! "id-2"
  = Some (ui_session 10).
Proof.
  exact (redirected_session_lifetime prepare_for_authenticate url (Some "ui-7")
           (handler None) before_redirect
           (world 300010 (_outstanding_requests_dict (redirect (Some "ui-7")).1)
              alice_bound ["@alice:hs"])
           "id-2"
           [("Cache-Control", "no-cache");
            ("Location",
             "https://idp.example.org/sso?RelayState=https://client/cb")]
           eq_refl eq_refl).
Defined.

(** ... and gone one millisecond later. *)
Example redirected_session_expired :
  _outstanding_requests_dict
    (expire_sessions (handler None)
       (world 300011 (_outstanding_requests_dict (redirect (Some "ui-7")).1)
          alice_bound ["@alice:hs"])).1 !! "id-2"
  = None.
Proof. rewrite lookup_expire_sessions. reflexivity. Qed.

Lemma matrix_characters_not_upper (c : ascii) :
  allowed mxid_localpart_allowed_characters c = true → is_upper c = false.
Proof. destruct c as [[] [] [] [] [] [] [] []]; vm_compute; congruence. Qed.

(** ["Al Ice"] is normalised to ["al.ice"], whose letter [a] is a
    localpart character. *)
Lemma dot_replace_for_mxid_localpart_characters_witness :
  dot_replace_for_mxid mxid_localpart_allowed_characters "Al Ice" = "al.ice" ∧
  In "a"%char mxid_localpart_allowed_characters.
Proof.
  split; [reflexivity |].
  apply (dot_replace_for_mxid_localpart_characters
           mxid_localpart_allowed_characters "Al Ice" "a"%char).
  - reflexivity.
  - vm_compute. do 2 right. left. reflexivity.
  - vm_compute. left. reflexivity.
Defined.

Lemma dot_replace_for_mxid_idempotent_iff_witness :
  dot_replace_for_mxid mxid_localpart_allowed_characters
    (dot_replace_for_mxid mxid_localpart_allowed_characters "Al Ice")
  = dot_replace_for_mxid mxid_localpart_allowed_characters "Al Ice".
Proof.
  apply (proj2 (dot_replace_for_mxid_idempotent_iff
                  mxid_localpart_allowed_characters "Al Ice"
                  eq_refl eq_refl matrix_characters_not_upper)).
  intros s. vm_compute. discriminate.
Defined.

Lemma dot_replace_for_mxid_empty_iff_witness :
  dot_replace_for_mxid mxid_localpart_allowed_characters "_" = "".
Proof.
  exact (proj2 (dot_replace_for_mxid_empty_iff
                  mxid_localpart_allowed_characters "_" eq_refl eq_refl)
           (or_intror eq_refl)).
Defined.

(** The candidates of attempts 1 and 2 for [alice]. *)
Lemma default_provider_candidates_distinct_witness :
  Some "alice1" ≠ Some "alice2".
Proof.
  apply (default_provider_candidates_distinct
           default_provider alice_response url 1 2
           {| mxid_localpart := Some "alice1"; displayname := None;
              emails := Some [] |}
           {| mxid_localpart := Some "alice2"; displayname := None;
              emails := Some [] |});
    [discriminate | reflexivity | reflexivity].
Defined.

(** A response with [uid] only is enough for a provider that maps [uid]. *)
Lemma required_attributes_are_needed_witness :
  ∃ remote_user_id attribute_dict localpart,
    DefaultSamlMappingProvider.get_remote_user_id default_provider
      alice_response url = inr remote_user_id ∧
    DefaultSamlMappingProvider.saml_response_to_user_attributes
      default_provider alice_response 0 url = inr attribute_dict ∧
    mxid_localpart attribute_dict = Some localpart.
Proof.
  apply (proj1 (required_attributes_are_needed
                  {| mxid_source_attribute := "uid";
                     mxid_mapper :=
                       dot_replace_for_mxid mxid_localpart_allowed_characters |}
                  None alice_response 0 url)).
  - intros a Ha. simpl in Ha.
    apply elem_of_union in Ha as [Ha | Ha];
      apply elem_of_singleton in Ha; subst a; by exists "alice", [].
  - vm_compute. discriminate.
Defined.

(** The default configuration, and a mapping that does not exist. *)
Example parse_config_examples :
  match DefaultSamlMappingProvider.parse_config
          (MXID_MAPPER_MAP lower mxid_localpart_allowed_characters) ∅ with
  | inr parsed =>
      mxid_source_attribute parsed = "uid" ∧ mxid_mapper parsed "Bob" = "bob"
  | inl _ => False
  end ∧
  DefaultSamlMappingProvider.parse_config
    (MXID_MAPPER_MAP lower mxid_localpart_allowed_characters)
    {[ "mxid_mapping" := "rot13" ]}
  = inl (ConfigError
           "saml2_config.user_mapping_provider.config: 'rot13' is not a valid mxid_mapping value").
Proof. split; [vm_compute; done | reflexivity]. Qed.

(** The loop on the six accounts, read backwards: the localpart [alice6]
    it leaves with is free and comes from an attempt below 1000. *)
Lemma mapping_loop_result_is_first_free_witness :
  ∃ (i : nat) attribute_dict,
    (i < 1000)%nat ∧
    saml_response_to_user_attributes (_user_mapping_provider (handler None))
      alice_response i url = inr attribute_dict ∧
    mxid_localpart attribute_dict = Some "alice6" ∧
    "alice6" ≠ "" ∧
    get_users_by_id_case_insensitive six_accounts "@alice6:hs" = [].
Proof.
  destruct (mapping_loop_result_is_first_free
              get_users_by_id_case_insensitive UserID_to_string
              (handler None) alice_response url
              (world 10 ∅ ∅ six_accounts) (world 10 ∅ ∅ six_accounts)
              "alice6" None [] eq_refl)
    as (i & d & Hi & Hd & Hlp & Hne & _ & _ & Hfree & _).
  exists i, d. repeat split; assumption.
Defined.

(** Carol's binding is still there after the first login of Alice. *)
Lemma bindings_never_overwritten_witness :
  user_external_ids
    (map_response None "alice" url (world 10 pending carol_bound [])).1
    !! ("saml", "carol")
  = Some "@carol:hs".
Proof.
  exact (bindings_never_overwritten
           (parse_authn_request_response known_responses)
           get_users_by_id_case_insensitive register_user lower UserID_to_string
           (handler None) "alice" url (world 10 pending carol_bound [])
           (map_response None "alice" url (world 10 pending carol_bound [])).1
           (map_response None "alice" url (world 10 pending carol_bound [])).2
           ("saml", "carol") "@carol:hs" eq_refl eq_refl).
Defined.

Lemma registers_once_a_free_localpart_witness :
  (register_user_calls
     (map_response None "alice" url (world 10 pending ∅ six_accounts)).1 = [] ∧
   accounts (map_response None "alice" url (world 10 pending ∅ six_accounts)).1
   = six_accounts) ∨
  ∃ c,
    register_user_calls
      (map_response None "alice" url (world 10 pending ∅ six_accounts)).1
    = [c] ∧
    call_localpart c ≠ "" ∧
    get_users_by_id_case_insensitive six_accounts
      (UserID_to_string (call_localpart c) hostname) = [].
Proof.
  exact (registers_once_a_free_localpart
           (parse_authn_request_response known_responses)
           get_users_by_id_case_insensitive register_user lower UserID_to_string
           (handler None) "alice" url (world 10 pending ∅ six_accounts)
           (map_response None "alice" url (world 10 pending ∅ six_accounts)).1
           (map_response None "alice" url (world 10 pending ∅ six_accounts)).2
           eq_refl).
Defined.

Lemma resolved_user_is_bound_witness :
  ∃ saml2_auth remote_user_id,
    parse_authn_request_response known_responses "alice" pending = inr saml2_auth ∧
    get_remote_user_id (_user_mapping_provider (handler None)) saml2_auth url
      = inr remote_user_id ∧
    user_external_ids (map_response None "alice" url (world 10 pending ∅ [])).1
      !! ("saml", remote_user_id)
    = Some "@alice:hs".
Proof.
  exact (resolved_user_is_bound
           (parse_authn_request_response known_responses)
           get_users_by_id_case_insensitive register_user lower UserID_to_string
           (handler None) "alice" url (world 10 pending ∅ [])
           (map_response None "alice" url (world 10 pending ∅ [])).1
           "@alice:hs" (Some (session 7)) eq_refl).
Defined.

(** The first login registers Alice; the same response resolved again gives
    the same user, without a session and without a second registration. *)
Lemma repeated_resolution_returns_same_user_witness :
  map_response None "alice" url
    (map_response None "alice" url (world 10 pending ∅ [])).1
  = ((map_response None "alice" url (world 10 pending ∅ [])).1,
     inr ("@alice:hs", None)).
Proof.
  exact (repeated_resolution_returns_same_user
           (parse_authn_request_response known_responses)
           get_users_by_id_case_insensitive register_user lower UserID_to_string
           (handler None) "alice" url (world 10 pending ∅ [])
           (map_response None "alice" url (world 10 pending ∅ [])).1
           "@alice:hs" (Some (session 7)) eq_refl eq_refl).
Defined.

Lemma pending_table_loses_at_most_answered_request_witness :
  time_msec (map_response None "alice" url (world 10 pending ∅ [])).1 = 10 ∧
  (_outstanding_requests_dict
     (map_response None "alice" url (world 10 pending ∅ [])).1 = pending ∨
   ∃ saml2_auth reqid,
     parse_authn_request_response known_responses "alice" pending = inr saml2_auth ∧
     not_signed saml2_auth = false ∧
     in_response_to saml2_auth = Some reqid ∧
     _outstanding_requests_dict
       (map_response None "alice" url (world 10 pending ∅ [])).1
     = delete reqid pending).
Proof.
  exact (pending_table_loses_at_most_answered_request
           (parse_authn_request_response known_responses)
           get_users_by_id_case_insensitive register_user lower UserID_to_string
           (handler None) "alice" url (world 10 pending ∅ [])
           (map_response None "alice" url (world 10 pending ∅ [])).1
           (map_response None "alice" url (world 10 pending ∅ [])).2
           eq_refl).
Defined.

(** A response that answers the tracked UI-auth session [ui-7] completes
    that session. *)
Lemma completion_follows_tracked_session_witness :
  ∃ saml2_auth user_id,
    parse_authn_request_response known_responses "alice"
      (_outstanding_requests_dict
         (expire_sessions (handler None)
            (world 10 pending_ui alice_bound ["@alice:hs"])).1) = inr saml2_auth ∧
    complete_sso_ui_auth "@alice:hs" "ui-7" (request "alice")
    = match in_response_to saml2_auth ≫=
              fun reqid =>
                _outstanding_requests_dict
                  (expire_sessions (handler None)
                     (world 10 pending_ui alice_bound ["@alice:hs"])).1 !! reqid with
      | Some {| ui_auth_session_id := Some session_id |} =>
          if truthy session_id
          then complete_sso_ui_auth user_id session_id (request "alice")
          else complete_sso_login user_id (request "alice") url
      | _ => complete_sso_login user_id (request "alice") url
      end.
Proof.
  exact (completion_follows_tracked_session
           parse_string (parse_authn_request_response known_responses)
           get_users_by_id_case_insensitive register_user lower UserID_to_string
           (handler None) (request "alice")
           (world 10 pending_ui alice_bound ["@alice:hs"])
           (world 10 ∅ alice_bound ["@alice:hs"])
           "alice" url
           (complete_sso_ui_auth "@alice:hs" "ui-7" (request "alice"))
           eq_refl eq_refl eq_refl).
Defined.

Example ui_auth_completed :
  handle None (request "alice") (world 10 pending_ui alice_bound ["@alice:hs"])
  = (world 10 ∅ alice_bound ["@alice:hs"],
     inr (complete_sso_ui_auth "@alice:hs" "ui-7" (request "alice"))).
Proof. vm_compute. reflexivity. Qed.

(** The same response arriving when the session is older than five minutes
    ends in a plain login. *)
Lemma expired_session_is_not_resumed_witness :
  ∃ user_id,
    complete_sso_login "@alice:hs" (request "alice") url
    = complete_sso_login user_id (request "alice") url.
Proof.
  exact (expired_session_is_not_resumed
           parse_string (parse_authn_request_response known_responses)
           get_users_by_id_case_insensitive register_user lower UserID_to_string
           (handler None) (request "alice")
           (world 400000 pending_ui alice_bound ["@alice:hs"])
           (world 400000 ∅ alice_bound ["@alice:hs"])
           "alice" url alice_response "id-1" (ui_session 7)
           (complete_sso_login "@alice:hs" (request "alice") url)
           eq_refl eq_refl eq_refl eq_refl eq_refl eq_refl eq_refl).
Defined.

Example expired_ui_auth_session :
  handle None (request "alice")
    (world 400000 pending_ui alice_bound ["@alice:hs"])
  = (world 400000 ∅ alice_bound ["@alice:hs"],
     inr (complete_sso_login "@alice:hs" (request "alice") url)).
Proof. vm_compute. reflexivity. Qed.

(** A redirect for the UI-auth session [ui-7], then the response to it. *)
Lemma redirect_then_response_witness :
  ∃ user_id,
    complete_sso_ui_auth "@alice:hs" "ui-7" (request "alice-2")
    = (if truthy "ui-7"
       then complete_sso_ui_auth user_id "ui-7" (request "alice-2")
       else complete_sso_login user_id (request "alice-2") url).
Proof.
  exact (redirect_then_response
           parse_string (parse_authn_request_response known_responses_2)
           get_users_by_id_case_insensitive register_user lower UserID_to_string
           prepare_for_authenticate
           (handler None) (request "alice-2")
           before_redirect (redirect (Some "ui-7")).1
           (world 10 ∅ alice_bound ["@alice:hs"])
           url (Some "ui-7") "id-2"
           [("Cache-Control", "no-cache");
            ("Location",
             "https://idp.example.org/sso?RelayState=https://client/cb")]
           "alice-2" url alice_response_2
           (complete_sso_ui_auth "@alice:hs" "ui-7" (request "alice-2"))
           eq_refl eq_refl ltac:(vm_compute; discriminate)
           eq_refl eq_refl eq_refl eq_refl eq_refl).
Defined.

Example redirect_and_response :
  handle_2 (request "alice-2") (redirect (Some "ui-7")).1
  = (before_redirect,
     inr (complete_sso_ui_auth "@alice:hs" "ui-7" (request "alice-2"))).
Proof. vm_compute. reflexivity. Qed.

(** The response that completed the UI-auth session [ui-7], replayed. *)
Lemma replayed_response_completes_plain_login_witness :
  ∃ user_id,
    ((∃ session_id,
        complete_sso_ui_auth "@alice:hs" "ui-7" (request "alice")
        = complete_sso_ui_auth user_id session_id (request "alice")) ∨
     complete_sso_ui_auth "@alice:hs" "ui-7" (request "alice")
     = complete_sso_login user_id (request "alice") url) ∧
    handle None (request "alice") (world 10 ∅ alice_bound ["@alice:hs"])
    = ((expire_sessions (handler None)
          (world 10 ∅ alice_bound ["@alice:hs"])).1,
       inr (complete_sso_login user_id (request "alice") url)).
Proof.
  exact (replayed_response_completes_plain_login
           parse_string (parse_authn_request_response known_responses)
           get_users_by_id_case_insensitive register_user lower UserID_to_string
           (handler None) (request "alice")
           (world 10 pending_ui alice_bound ["@alice:hs"])
           (world 10 ∅ alice_bound ["@alice:hs"])
           "alice" url alice_response
           (complete_sso_ui_auth "@alice:hs" "ui-7" (request "alice"))
           eq_refl eq_refl eq_refl eq_refl eq_refl).
Defined.
